(** * ModalElement.js: the dialog widget and its per-invocation callbacks

    A shallow embedding of the class [ModalElement] of
    [src/js/ModalElement.js].  The private fields of an instance, the part
    of the DOM subtree the methods read and write, and the two pieces of
    the page the methods touch (the focused element and the caller's
    callbacks) form one [state]; every method is a function in a state
    and exception monad.

    Conventions of the embedding.
    - A value assigned to a label is any JavaScript value ([jsval]): a
      primitive, a symbol, or an object given by what its conversion to
      a string does.  A number is given by whether it is falsy and by
      the string JavaScript prints for it.
    - The argument of [invokeEvent] is any value ([jsevent]): an event
      with the flags [dispatchEvent] tests, or something that is not an
      event.  A callback group is [undefined], [null] or an array of
      functions, an event type is a string, as the JSDoc has them.
    - Markup is given by the fragment the HTML parser makes of the string
      ([markup]): [innerHTML] installs the fragment as the children of the
      element.  Handlers in attributes of the markup are not run.
    - [#getModalChild] is [getElementsByClassName(...)[0]]: the first
      element of the class in tree order, which is an element built by
      [#buildModal] or an element of the markup under the title or the
      description.  The elements [#buildModal] builds never move, so
      their properties are fields of [dom]; the markup is kept as trees.
    - A caller's callback is an opaque zero-argument function of the page
      ([callback]): a call is recorded in [calls], with the value the
      [isActive] getter has at that moment, and either returns or throws.
      Callbacks that call back into the dialog are not modelled.
    - A closure has an identity ([c_id]), allocated from [nextClosure];
      [addEventListener] and [removeEventListener] compare identities.
    - [dispatchEvent] follows the DOM: it rejects a value that is not an
      event, and an event that is not initialised or is being
      dispatched; it runs no listener for an event whose propagation was
      stopped beforehand; otherwise it walks a snapshot of the listeners
      taken when the dispatch starts, skips a listener removed in the
      meantime, and reports (does not propagate) an exception thrown by
      a listener.
    - The instance was created while the page was loading and is used
      after the load, so the subtree is in the document (line 219), and
      the page has no style rule of its own for the classes of the
      dialog.  The display of an element is its inline [display]
      property; without it the stylesheet decides: the one [#buildStyle]
      generates hides the overlay and the confirm and decline buttons,
      and without it they are rendered.
    - Focus moves when [focus()] is called on an element that can take
      it, or when the page moves it; hiding the element that holds focus
      does not move it (browsers differ on when they do that).
    - A click runs the listeners of lines 99-136; the move of focus a
      pointer causes is not part of it. *)

From Stdlib Require Import List String Ascii Bool Arith ZArith Lia.
Import ListNotations.
Local Open Scope string_scope.
Local Open Scope list_scope.

Module ModalElement.

(** ** Exceptions and completions *)

Inductive exn : Type :=
| Error (message : string)
| TypeError
| InvalidStateError
| Thrown (by_callback : nat).

Inductive completion (A : Type) : Type :=
| Normal (a : A)
| Throw (e : exn).

Arguments Normal {A} a.
Arguments Throw {A} e.

(** ** Values *)

(** Values a caller may assign to a label.  [JNumber] is a Number or a
    BigInt: [zero_or_nan] says whether it is 0, -0, 0n or NaN, and
    [String first rest] is the string JavaScript prints for it, which is
    never empty.  [JObject] is an object (an array, a function, ...):
    [conversion] is what converting it to a string gives, the string its
    [toString] or [valueOf] returns or the exception thrown on the
    way.  [JDocumentAll] is [document.all], the one object that is
    falsy. *)
Inductive jsval : Type :=
| JUndefined
| JNull
| JBool (b : bool)
| JNumber (zero_or_nan : bool) (first : ascii) (rest : string)
| JString (s : string)
| JSymbol
| JObject (conversion : completion string)
| JDocumentAll.

(** [if (v)]: the falsy values are undefined, null, false, 0, NaN, the
    empty string and [document.all]; symbols and the other objects are
    truthy. *)
Definition truthy (v : jsval) : bool :=
  match v with
  | JUndefined | JNull | JDocumentAll => false
  | JBool b => b
  | JNumber zero_or_nan _ _ => negb zero_or_nan
  | JString s => negb (String.eqb s "")
  | JSymbol | JObject _ => true
  end.

Definition nullish (v : jsval) : bool :=
  match v with
  | JUndefined | JNull => true
  | _ => false
  end.

(** The conversion the [innerText] setter applies to the value assigned:
    [null] gives the empty string, a symbol cannot be converted. *)
Definition ToString (v : jsval) : completion string :=
  match v with
  | JUndefined => Normal "undefined"
  | JNull => Normal ""
  | JBool true => Normal "true"
  | JBool false => Normal "false"
  | JNumber _ first rest => Normal (String first rest)
  | JString s => Normal s
  | JSymbol => Throw TypeError
  | JObject conversion => conversion
  | JDocumentAll => Normal "[object HTMLAllCollection]"
  end.

(** A zero-argument function supplied by the caller. *)
Record callback : Type := { cb_name : nat; cb_throws : bool }.

(** The functions found in an [actions] array: a caller's function, or the
    arrow function of [start] (source lines 257-262). *)
Inductive action : Type :=
| UserFn (f : callback)
| CleanupFn.

(** The [actions] parameter of [registerActions]. *)
Inductive actions_val : Type :=
| ActsUndefined
| ActsNull
| ActsArray (l : list action).

(** A callback group as a caller passes it. *)
Inductive actions_arg : Type :=
| ArgUndefined
| ArgNull
| ArgArray (l : list callback).

Definition pass (a : actions_arg) : actions_val :=
  match a with
  | ArgUndefined => ActsUndefined
  | ArgNull => ActsNull
  | ArgArray l => ActsArray (map UserFn l)
  end.

(** The functions of a group; no functions when none was passed. *)
Definition group (a : actions_arg) : list callback :=
  match a with
  | ArgArray l => l
  | _ => []
  end.

Definition is_undefined (a : actions_arg) : bool :=
  match a with
  | ArgUndefined => true
  | _ => false
  end.

(** Elements that can hold focus: the dialog's content panel, or an
    element of the page.  [None] stands for no focused element
    ([document.activeElement] is then the body, whose [focus()] does
    nothing). *)
Inductive element : Type :=
| MdContent
| PageElement (n : nat).

(** An event object, with the flags [dispatchEvent] reads: the
    initialized flag, the dispatch flag (set while the event is being
    dispatched) and the stop propagation flag (set by [stopPropagation]
    or [stopImmediatePropagation]; cleared when a dispatch ends). *)
Record event : Type := {
  ev_type : string;
  ev_initialized : bool;
  ev_dispatch : bool;
  ev_stop_propagation : bool
}.

(** [new CustomEvent(type)] *)
Definition CustomEvent (type : string) : event :=
  {| ev_type := type;
     ev_initialized := true;
     ev_dispatch := false;
     ev_stop_propagation := false |}.

(** What a caller may pass where an event is expected. *)
Inductive jsevent : Type :=
| AnEvent (ev : event)
| NotAnEvent.

(** The closure [() => { actions.forEach(action => action()) }]. *)
Record closure : Type := { c_id : nat; c_actions : list action }.

(** An entry [{type, listener}] of [#registeredListeners]. *)
Record registered : Type := { r_type : string; r_listener : closure }.

(** A listener attached to [#modal]: the click listener of the
    constructor (line 99), or a closure added by [registerActions]. *)
Inductive listener : Type :=
| OverlayClick
| Att (l_type : string) (l_callback : closure).

(** ** Markup *)

(** A node of parsed markup: text, or an element with what the methods
    can see of it.  [html] says whether it is an HTML element (an SVG or
    MathML element has no [innerText] accessor); [classes] are the class
    names under which [getElementsByClassName] finds it; [display] is
    its inline display. *)
#[local] Unset Elimination Schemes.
Inductive node : Type :=
| Text (s : string)
| Element (html : bool) (classes : list string) (display : option string)
    (children : list node).
#[local] Set Elimination Schemes.

(** The fragment the parser makes of a string of markup, in the element
    the string is assigned to.  Every string has one, so what holds for
    every fragment holds for every string; an omitted [title] or
    [description] is the empty string, whose fragment is empty. *)
Definition markup : Type := list node.

(** The fragment of a non-empty string without tags or character
    references: one text node. *)
Definition text (s : string) : markup := [Text s].

Definition has_class (cls : string) (classes : list string) : bool :=
  existsb (String.eqb cls) classes.

(** The first element with the class in the subtree of a node, in tree
    order: the node itself, or the first found in its children, given
    by the path to it (the positions of the children to follow). *)
Fixpoint first_under (cls : string) (n : node) : option (list nat) :=
  match n with
  | Text _ => None
  | Element _ classes _ children =>
      if has_class cls classes then Some []
      else
        (fix among (l : list node) (i : nat) : option (list nat) :=
           match l with
           | [] => None
           | x :: rest =>
               match first_under cls x with
               | Some p => Some (i :: p)
               | None => among rest (S i)
               end
           end) children 0
  end.

(** The same, among the trees of a fragment. *)
Definition first_with (cls : string) (l : list node) : option (list nat) :=
  first_under cls (Element true [] None l).

Fixpoint update_nth {A : Type} (i : nat) (f : A -> A) (l : list A) : list A :=
  match l, i with
  | [], _ => []
  | x :: rest, 0 => f x :: rest
  | x :: rest, S j => x :: update_nth j f rest
  end.

Fixpoint update_at (p : list nat) (f : node -> node) (n : node) : node :=
  match p with
  | [] => f n
  | i :: q =>
      match n with
      | Text _ => n
      | Element html classes display children =>
          Element html classes display (update_nth i (update_at q f) children)
      end
  end.

(** The fragment with [f] applied to the node at a path. *)
Definition update_in (p : list nat) (f : node -> node) (l : list node) : list node :=
  match p with
  | [] => l
  | i :: q => update_nth i (update_at q f) l
  end.

Fixpoint node_at (p : list nat) (n : node) : option node :=
  match p with
  | [] => Some n
  | i :: q =>
      match n with
      | Text _ => None
      | Element _ _ _ children =>
          match nth_error children i with
          | Some x => node_at q x
          | None => None
          end
      end
  end.

Definition node_in (p : list nat) (l : list node) : option node :=
  node_at p (Element true [] None l).

(** [element.innerHTML = markup] *)
Definition with_children (l : list node) (n : node) : node :=
  match n with
  | Text _ => n
  | Element html classes display _ => Element html classes display l
  end.

(** [element.style.display = v], or [removeProperty("display")] for [None] *)
Definition with_display (v : option string) (n : node) : node :=
  match n with
  | Text _ => n
  | Element html classes _ children => Element html classes v children
  end.

(** [element.innerText = s] on an HTML element: the text replaces the
    children (a line break of [s] stands for the [br] element made of
    it).  On another element the assignment creates a property of the
    object and the tree stays as it is. *)
Definition with_text (s : string) (n : node) : node :=
  match n with
  | Text _ => n
  | Element html classes display children =>
      if html
      then Element html classes display (if String.eqb s "" then [] else [Text s])
      else n
  end.

(** ** State *)

(** The elements [#buildModal] creates under [#modal] (lines 101-136), in
    tree order. *)
Inductive built : Type :=
| Content
| Close
| Title
| Description
| ButtonContainer
| Confirm
| Decline.

Definition classes_of (b : built) : list string :=
  match b with
  | Content => ["md-content"]
  | Close => ["md-btn"; "md-close"]
  | Title => ["md-title"]
  | Description => ["md-description"]
  | ButtonContainer => ["md-button-container"]
  | Confirm => ["md-btn"; "md-confirm"]
  | Decline => ["md-btn"; "md-decline"]
  end.

(** An element under [#modal]: one of those built, or an element of the
    markup below the title or below the description, by its path. *)
Inductive child : Type :=
| Built (b : built)
| InTitle (path : list nat)
| InDescription (path : list nat).

(** The part of the document the methods use: the markup under the
    title and the description, the text and the inline display of the
    two buttons, the inline display and the listeners of [#modal], and
    whether the style element of [#buildStyle] is in the document. *)
Record dom : Type := {
  title_children : list node;
  description_children : list node;
  confirm_innerText : string;
  decline_innerText : string;
  confirm_display : option string;
  decline_display : option string;
  modal_display : option string;
  md_style : bool;
  listeners : list listener
}.

Record state : Type := {
  modal : dom;
  preModalFocusTarget : option element;
  registeredListeners : list registered;
  isActive : bool;
  activeElement : option element;
  nextClosure : nat;
  calls : list (nat * bool)
}.

Definition set_modal (f : dom -> dom) (st : state) : state :=
  {| modal := f (modal st);
     preModalFocusTarget := preModalFocusTarget st;
     registeredListeners := registeredListeners st;
     isActive := isActive st;
     activeElement := activeElement st;
     nextClosure := nextClosure st;
     calls := calls st |}.

Definition set_preModalFocusTarget (t : option element) (st : state) : state :=
  {| modal := modal st;
     preModalFocusTarget := t;
     registeredListeners := registeredListeners st;
     isActive := isActive st;
     activeElement := activeElement st;
     nextClosure := nextClosure st;
     calls := calls st |}.

Definition set_registeredListeners (r : list registered) (st : state) : state :=
  {| modal := modal st;
     preModalFocusTarget := preModalFocusTarget st;
     registeredListeners := r;
     isActive := isActive st;
     activeElement := activeElement st;
     nextClosure := nextClosure st;
     calls := calls st |}.

Definition set_isActive (b : bool) (st : state) : state :=
  {| modal := modal st;
     preModalFocusTarget := preModalFocusTarget st;
     registeredListeners := registeredListeners st;
     isActive := b;
     activeElement := activeElement st;
     nextClosure := nextClosure st;
     calls := calls st |}.

Definition set_activeElement (e : option element) (st : state) : state :=
  {| modal := modal st;
     preModalFocusTarget := preModalFocusTarget st;
     registeredListeners := registeredListeners st;
     isActive := isActive st;
     activeElement := e;
     nextClosure := nextClosure st;
     calls := calls st |}.

Definition set_nextClosure (n : nat) (st : state) : state :=
  {| modal := modal st;
     preModalFocusTarget := preModalFocusTarget st;
     registeredListeners := registeredListeners st;
     isActive := isActive st;
     activeElement := activeElement st;
     nextClosure := n;
     calls := calls st |}.

Definition set_calls (c : list (nat * bool)) (st : state) : state :=
  {| modal := modal st;
     preModalFocusTarget := preModalFocusTarget st;
     registeredListeners := registeredListeners st;
     isActive := isActive st;
     activeElement := activeElement st;
     nextClosure := nextClosure st;
     calls := c |}.


Definition set_title_children (l : list node) (d : dom) : dom :=
  {| title_children := l;
     description_children := description_children d;
     confirm_innerText := confirm_innerText d;
     decline_innerText := decline_innerText d;
     confirm_display := confirm_display d;
     decline_display := decline_display d;
     modal_display := modal_display d;
     md_style := md_style d;
     listeners := listeners d |}.

Definition set_description_children (l : list node) (d : dom) : dom :=
  {| title_children := title_children d;
     description_children := l;
     confirm_innerText := confirm_innerText d;
     decline_innerText := decline_innerText d;
     confirm_display := confirm_display d;
     decline_display := decline_display d;
     modal_display := modal_display d;
     md_style := md_style d;
     listeners := listeners d |}.

Definition set_confirm_innerText (s : string) (d : dom) : dom :=
  {| title_children := title_children d;
     description_children := description_children d;
     confirm_innerText := s;
     decline_innerText := decline_innerText d;
     confirm_display := confirm_display d;
     decline_display := decline_display d;
     modal_display := modal_display d;
     md_style := md_style d;
     listeners := listeners d |}.

Definition set_decline_innerText (s : string) (d : dom) : dom :=
  {| title_children := title_children d;
     description_children := description_children d;
     confirm_innerText := confirm_innerText d;
     decline_innerText := s;
     confirm_display := confirm_display d;
     decline_display := decline_display d;
     modal_display := modal_display d;
     md_style := md_style d;
     listeners := listeners d |}.

Definition set_confirm_display (v : option string) (d : dom) : dom :=
  {| title_children := title_children d;
     description_children := description_children d;
     confirm_innerText := confirm_innerText d;
     decline_innerText := decline_innerText d;
     confirm_display := v;
     decline_display := decline_display d;
     modal_display := modal_display d;
     md_style := md_style d;
     listeners := listeners d |}.

Definition set_decline_display (v : option string) (d : dom) : dom :=
  {| title_children := title_children d;
     description_children := description_children d;
     confirm_innerText := confirm_innerText d;
     decline_innerText := decline_innerText d;
     confirm_display := confirm_display d;
     decline_display := v;
     modal_display := modal_display d;
     md_style := md_style d;
     listeners := listeners d |}.

Definition set_modal_display (v : option string) (d : dom) : dom :=
  {| title_children := title_children d;
     description_children := description_children d;
     confirm_innerText := confirm_innerText d;
     decline_innerText := decline_innerText d;
     confirm_display := confirm_display d;
     decline_display := decline_display d;
     modal_display := v;
     md_style := md_style d;
     listeners := listeners d |}.

Definition set_listeners (ls : list listener) (d : dom) : dom :=
  {| title_children := title_children d;
     description_children := description_children d;
     confirm_innerText := confirm_innerText d;
     decline_innerText := decline_innerText d;
     confirm_display := confirm_display d;
     decline_display := decline_display d;
     modal_display := modal_display d;
     md_style := md_style d;
     listeners := ls |}.

(** ** [#getModalChild] and the properties assigned through it *)

(** [this.#modal.getElementsByClassName(childClassName)[0]] (line 90):
    the first element of the class among the descendants of [#modal], in
    tree order: the content panel, the close button, the title and the
    markup below it, the description and the markup below it, the button
    container, the confirm button, the decline button.  [None] is
    [undefined]. *)
Definition modal_child (childClassName : string) (m : dom) : option child :=
  let has b := has_class childClassName (classes_of b) in
  if has Content then Some (Built Content)
  else if has Close then Some (Built Close)
  else if has Title then Some (Built Title)
  else
    match first_with childClassName (title_children m) with
    | Some p => Some (InTitle p)
    | None =>
        if has Description then Some (Built Description)
        else
          match first_with childClassName (description_children m) with
          | Some p => Some (InDescription p)
          | None =>
              if has ButtonContainer then Some (Built ButtonContainer)
              else if has Confirm then Some (Built Confirm)
              else if has Decline then Some (Built Decline)
              else None
          end
    end.

(** [c.innerHTML = l].  The methods assign markup to what they find for
    "md-title" and "md-description" only, so the other built elements
    are no targets. *)
Definition set_innerHTML (c : child) (l : markup) (m : dom) : dom :=
  match c with
  | Built Title => set_title_children l m
  | Built Description => set_description_children l m
  | Built _ => m
  | InTitle p => set_title_children (update_in p (with_children l) (title_children m)) m
  | InDescription p =>
      set_description_children
        (update_in p (with_children l) (description_children m)) m
  end.

(** [c.style.display = v], or [c.style.removeProperty("display")].  The
    targets are what is found for "md-confirm" and "md-decline". *)
Definition set_display (c : child) (v : option string) (m : dom) : dom :=
  match c with
  | Built Confirm => set_confirm_display v m
  | Built Decline => set_decline_display v m
  | Built _ => m
  | InTitle p => set_title_children (update_in p (with_display v) (title_children m)) m
  | InDescription p =>
      set_description_children
        (update_in p (with_display v) (description_children m)) m
  end.

(** The effect of [c.innerText = s] once [s] is a string.  The targets
    are what is found for "md-confirm" and "md-decline". *)
Definition set_innerText (c : child) (s : string) (m : dom) : dom :=
  match c with
  | Built Confirm => set_confirm_innerText s m
  | Built Decline => set_decline_innerText s m
  | Built _ => m
  | InTitle p => set_title_children (update_in p (with_text s) (title_children m)) m
  | InDescription p =>
      set_description_children
        (update_in p (with_text s) (description_children m)) m
  end.

(** Does the element have the [innerText] accessor, that is, is it an
    HTML element? *)
Definition has_innerText (c : child) (m : dom) : bool :=
  match c with
  | Built _ => true
  | InTitle p =>
      match node_in p (title_children m) with
      | Some (Element html _ _ _) => html
      | _ => false
      end
  | InDescription p =>
      match node_in p (description_children m) with
      | Some (Element html _ _ _) => html
      | _ => false
      end
  end.

(** ** The monad of the methods: state, and exceptions that keep the state *)

Definition M (A : Type) : Type := state -> completion A * state.

Definition ret {A : Type} (a : A) : M A := fun st => (Normal a, st).

Definition bind {A B : Type} (m : M A) (k : A -> M B) : M B :=
  fun st =>
    match m st with
    | (Normal a, st') => k a st'
    | (Throw e, st') => (Throw e, st')
    end.

Definition throw {A : Type} (e : exn) : M A := fun st => (Throw e, st).

Definition get {A : Type} (f : state -> A) : M A := fun st => (Normal (f st), st).

Definition modify (f : state -> state) : M unit := fun st => (Normal tt, f st).

(** An exception thrown by an event listener is reported to the page's
    error handler; the dispatch goes on. *)
Definition report (m : M unit) : M unit := fun st => (Normal tt, snd (m st)).

Notation "x <- m ;; k" := (bind m (fun x => k))
  (at level 61, m at next level, right associativity).
Notation "m ;; k" := (bind m (fun _ => k))
  (at level 61, right associativity).

(** [array.forEach(f)] *)
Fixpoint forEach {A : Type} (l : list A) (f : A -> M unit) : M unit :=
  match l with
  | [] => ret tt
  | x :: rest => f x ;; forEach rest f
  end.

(** ** Event listeners of [#modal] *)

Definition same_listener (ty : string) (c : closure) (l : listener) : bool :=
  match l with
  | OverlayClick => false
  | Att ty' c' => String.eqb ty ty' && Nat.eqb (c_id c) (c_id c')
  end.

(** [addEventListener(type, callback)]: appended unless already there. *)
Definition addEventListener (ty : string) (c : closure) (d : dom) : dom :=
  if existsb (same_listener ty c) (listeners d) then d
  else set_listeners (listeners d ++ [Att ty c]) d.

Fixpoint remove_listener (ty : string) (c : closure) (ls : list listener)
  : list listener :=
  match ls with
  | [] => []
  | l :: rest =>
      if same_listener ty c l then rest else l :: remove_listener ty c rest
  end.

(** [removeEventListener(type, callback)] *)
Definition removeEventListener (ty : string) (c : closure) (d : dom) : dom :=
  set_listeners (remove_listener ty c (listeners d)) d.

(** Is a listener of the snapshot still in the list (not removed)? *)
Definition still_attached (l : listener) (ls : list listener) : bool :=
  match l with
  | OverlayClick => true
  | Att ty c => existsb (same_listener ty c) ls
  end.

Definition matches (ty : string) (l : listener) : bool :=
  match l with
  | OverlayClick => String.eqb "click" ty
  | Att ty' _ => String.eqb ty' ty
  end.

(** ** Callbacks *)

(** A call of a caller's function: recorded with the value of the
    [isActive] getter at that moment. *)
Definition run_callback (f : callback) : M unit :=
  active <- get isActive ;;
  modify (fun st => set_calls (calls st ++ [(cb_name f, active)]) st) ;;
  if cb_throws f then throw (Thrown (cb_name f)) else ret tt.

(** Lines 257-262. *)
Definition cleanup : M unit :=
  regs <- get registeredListeners ;;
  forEach regs (fun registeredListener =>
    modify (set_modal (removeEventListener (r_type registeredListener)
                                           (r_listener registeredListener)))) ;;
  modify (set_registeredListeners []).

Definition call (a : action) : M unit :=
  match a with
  | UserFn f => run_callback f
  | CleanupFn => cleanup
  end.

(** The body of a closure of [registerActions] (line 318). *)
Definition invoke (c : closure) : M unit := forEach (c_actions c) call.

(** ** Constants *)

Definition DEFAULT_CONFIRM_TEXT : string := "Ok".
Definition DEFAULT_DECLINE_TEXT : string := "Decline".

(** Lines 79-82. *)
Definition onStart : event := CustomEvent "modalStart".
Definition onEnd : event := CustomEvent "modalEnd".
Definition onConfirm : event := CustomEvent "modalConfirm".
Definition onDecline : event := CustomEvent "modalDecline".

Definition already_active : exn :=
  Error "Can't start new modal before previous ends.".

(** ** Methods *)

(** Lines 89-91, where a property of the result is used next: on
    [undefined] that use throws a [TypeError]. *)
Definition getModalChild (childClassName : string) : M child :=
  m <- get modal ;;
  match modal_child childClassName m with
  | Some c => ret c
  | None => throw TypeError
  end.

(** [c.innerText = v]: the accessor converts the value to a string, which
    may throw, and replaces the children of the element. *)
Definition assign_innerText (c : child) (v : jsval) : M unit :=
  m <- get modal ;;
  if has_innerText c m
  then match ToString v with
       | Normal s => modify (set_modal (set_innerText c s))
       | Throw e => throw e
       end
  else ret tt.

(** Lines 44-49. *)
Definition set_confirmText (newText : jsval) : M unit :=
  if truthy newText
  then c <- getModalChild "md-confirm" ;; assign_innerText c newText
  else c <- getModalChild "md-confirm" ;;
       assign_innerText c (JString DEFAULT_CONFIRM_TEXT).

(** Lines 56-61. *)
Definition set_declineText (newText : jsval) : M unit :=
  if truthy newText
  then c <- getModalChild "md-decline" ;; assign_innerText c newText
  else c <- getModalChild "md-decline" ;;
       assign_innerText c (JString DEFAULT_DECLINE_TEXT).

(** Lines 310-327.  An array, even an empty one, is truthy. *)
Definition registerActions (eventIdentifier : string) (actions : actions_val)
  : M unit :=
  match actions with
  | ActsUndefined | ActsNull => ret tt
  | ActsArray l =>
      id <- get nextClosure ;;
      modify (set_nextClosure (S id)) ;;
      modify (fun st =>
        set_registeredListeners
          (registeredListeners st ++
             [{| r_type := eventIdentifier;
                 r_listener := {| c_id := id; c_actions := l |} |}]) st) ;;
      index <- get (fun st => List.length (registeredListeners st) - 1) ;;
      regs <- get registeredListeners ;;
      match nth_error regs index with
      | None => throw TypeError
      | Some r => modify (set_modal (addEventListener eventIdentifier (r_listener r)))
      end
  end.

(** The listeners of a dispatch, run over the snapshot.  [overlay] is what
    the click listener of line 99 calls when the event's target is
    [#modal] itself. *)
Fixpoint inner_invoke (overlay : M unit) (path0_is_modal : bool)
    (snapshot : list listener) : M unit :=
  match snapshot with
  | [] => ret tt
  | l :: rest =>
      ls <- get (fun st => listeners (modal st)) ;;
      (if still_attached l ls
       then report (match l with
                    | OverlayClick => if path0_is_modal then overlay else ret tt
                    | Att _ c => invoke c
                    end)
       else ret tt) ;;
      inner_invoke overlay path0_is_modal rest
  end.

(** An event of type [ty] at [#modal]: dispatched on it, or arriving
    from a button by bubbling. *)
Definition dispatch (overlay : M unit) (ty : string)
    (path0_is_modal : bool) : M unit :=
  ls <- get (fun st => listeners (modal st)) ;;
  inner_invoke overlay path0_is_modal (filter (matches ty) ls).

(** Can the event be dispatched: is it initialised and not being
    dispatched? *)
Definition dispatchable (ev : event) : bool :=
  ev_initialized ev && negb (ev_dispatch ev).

(** [this.#modal.dispatchEvent(event)] (line 335) *)
Definition dispatchEvent (overlay : M unit) (event : jsevent) : M unit :=
  match event with
  | NotAnEvent => throw TypeError
  | AnEvent ev =>
      if dispatchable ev
      then if ev_stop_propagation ev then ret tt
           else dispatch overlay (ev_type ev) true
      else throw InvalidStateError
  end.

(** [array.splice(i, 1)] *)
Definition splice {A : Type} (i : nat) (l : list A) : list A :=
  firstn i l ++ skipn (S i) l.

(** The loop of lines 338-345, for [i] from [n - 1] down to [0].  Reading
    [el.type] of a missing entry would throw. *)
Fixpoint removal_loop (ty : string) (n : nat) : M unit :=
  match n with
  | 0 => ret tt
  | S i =>
      regs <- get registeredListeners ;;
      match nth_error regs i with
      | None => throw TypeError
      | Some el =>
          (if String.eqb (r_type el) ty
           then modify (set_registeredListeners (splice i regs)) ;;
                modify (set_modal (removeEventListener (r_type el) (r_listener el)))
           else ret tt) ;;
          removal_loop ty i
      end
  end.

(** Lines 333-347, for a given behaviour of the overlay's click listener.
    The loop reads [event.type]; it is reached only when line 335 has
    returned, so with an event. *)
Definition invokeEvent_on (overlay : M unit) (event : jsevent) : M unit :=
  dispatchEvent overlay event ;;
  match event with
  | AnEvent ev =>
      n <- get (fun st => List.length (registeredListeners st)) ;;
      removal_loop (ev_type ev) n
  | NotAnEvent => throw TypeError
  end.

(** [element.focus()]: a page element takes focus; the content panel does
    when it is rendered, that is, when the overlay has an inline display
    (which is never "none") or the generated stylesheet is absent. *)
Definition focus (e : element) : M unit :=
  match e with
  | PageElement _ => modify (set_activeElement (Some e))
  | MdContent =>
      d <- get (fun st => modal_display (modal st)) ;;
      styled <- get (fun st => md_style (modal st)) ;;
      match d with
      | Some _ => modify (set_activeElement (Some e))
      | None => if styled then ret tt else modify (set_activeElement (Some e))
      end
  end.

(** [c.focus()] for what line 281 finds: the content panel is the first
    element under [#modal], so nothing else is found for its class. *)
Definition focus_child (c : child) : M unit :=
  match c with
  | Built Content => focus MdContent
  | _ => ret tt
  end.

(** Lines 292-304.  The event dispatched is [modalEnd]; the overlay's
    listener is a click listener and is not among its listeners, so what
    it would call is immaterial here (lemma [end_overlay_irrelevant]). *)
Definition end_on (overlay : M unit) : M unit :=
  modify (set_modal (set_modal_display None)) ;;
  target <- get preModalFocusTarget ;;
  (match target with
   | Some e => focus e
   | None => ret tt
   end) ;;
  modify (set_preModalFocusTarget None) ;;
  invokeEvent_on overlay (AnEvent onEnd) ;;
  modify (set_isActive false).

Definition end_ : M unit := end_on (ret tt).

(** Lines 333-347: the public method.  The click listener of the overlay
    calls [this.end()]. *)
Definition invokeEvent (event : jsevent) : M unit := invokeEvent_on end_ event.

(** Lines 234-287.  The strings [title] and [description] are given by
    the fragments the parser makes of them. *)
Definition start (title description : markup)
    (onEndActions onConfirmActions onDeclineActions onStartActions : actions_arg)
  : M unit :=
  active <- get isActive ;;
  if active then throw already_active
  else
    c <- getModalChild "md-title" ;;
    modify (set_modal (set_innerHTML c title)) ;;
    c <- getModalChild "md-description" ;;
    modify (set_modal (set_innerHTML c description)) ;;
    registerActions (ev_type onStart) (pass onStartActions) ;;
    registerActions (ev_type onConfirm) (pass onConfirmActions) ;;
    registerActions (ev_type onDecline) (pass onDeclineActions) ;;
    registerActions (ev_type onEnd) (pass onEndActions) ;;
    registerActions (ev_type onEnd) (ActsArray [CleanupFn]) ;;
    (if negb (is_undefined onConfirmActions)
     then c <- getModalChild "md-confirm" ;;
          modify (set_modal (set_display c (Some "block")))
     else c <- getModalChild "md-confirm" ;;
          modify (set_modal (set_display c None))) ;;
    (if negb (is_undefined onDeclineActions)
     then c <- getModalChild "md-decline" ;;
          modify (set_modal (set_display c (Some "block")))
     else c <- getModalChild "md-decline" ;;
          modify (set_modal (set_display c None))) ;;
    modify (set_modal (set_modal_display (Some "block"))) ;;
    here <- get activeElement ;;
    modify (set_preModalFocusTarget here) ;;
    c <- getModalChild "md-content" ;;
    focus_child c ;;
    invokeEvent (AnEvent onStart) ;;
    modify (set_isActive true).

(** ** The listeners of the buttons (lines 99-136) *)

Inductive click_target : Type :=
| OnOverlay
| OnContent
| OnClose
| OnConfirm
| OnDecline.

(** A click event: the listener of the clicked element, then the click
    listeners of [#modal] (the event's target when the overlay itself is
    clicked, reached by bubbling otherwise). *)
Definition click (target : click_target) : M unit :=
  report (match target with
          | OnClose => end_
          | OnConfirm => invokeEvent (AnEvent onConfirm) ;; end_
          | OnDecline => invokeEvent (AnEvent onDecline) ;; end_
          | OnOverlay | OnContent => ret tt
          end) ;;
  dispatch end_ "click"
    (match target with OnOverlay => true | _ => false end).

(** ** Construction (lines 67-83, 96-143)

    [focused] is the element of the page that holds focus.  With
    [generateCSS] the style element of [#buildStyle] joins the document. *)

Definition new_ModalElement (generateCSS : bool) (focused : option element) : state :=
  {| modal := {| title_children := [];
                 description_children := [];
                 confirm_innerText := DEFAULT_CONFIRM_TEXT;
                 decline_innerText := DEFAULT_DECLINE_TEXT;
                 confirm_display := None;
                 decline_display := None;
                 modal_display := None;
                 md_style := generateCSS;
                 listeners := [OverlayClick] |};
     preModalFocusTarget := None;
     registeredListeners := [];
     isActive := false;
     activeElement := focused;
     nextClosure := 0;
     calls := [] |}.

(** ** Use of an instance by the page *)

Inductive op : Type :=
| CallStart (title description : markup)
    (onEndActions onConfirmActions onDeclineActions onStartActions : actions_arg)
| CallEnd
| CallRegisterActions (eventIdentifier : string) (actions : actions_arg)
| CallInvokeEvent (event : jsevent)
| AssignConfirmText (newText : jsval)
| AssignDeclineText (newText : jsval)
| Click (target : click_target)
| PageFocus (e : option element).

Definition step (o : op) : M unit :=
  match o with
  | CallStart t d e c dl s => start t d e c dl s
  | CallEnd => end_
  | CallRegisterActions ty a => registerActions ty (pass a)
  | CallInvokeEvent ev => invokeEvent ev
  | AssignConfirmText v => set_confirmText v
  | AssignDeclineText v => set_declineText v
  | Click t => click t
  | PageFocus e => modify (set_activeElement e)
  end.

(** A sequence of uses; an exception is the caller's to handle, the
    instance keeps the state it had when it was thrown. *)
Fixpoint run (ops : list op) (st : state) : state :=
  match ops with
  | [] => st
  | o :: rest => run rest (snd (step o st))
  end.

Definition reachable (st : state) : Prop :=
  exists generateCSS focused ops, st = run ops (new_ModalElement generateCSS focused).

(** The calls an operation adds to the record. *)
Definition calls_during (m : M unit) (st : state) : list (nat * bool) :=
  skipn (List.length (calls st)) (calls (snd (m st))).

(** The type of the listeners an [invokeEvent] runs, if it runs any: the
    type of an event that can be dispatched and whose propagation is not
    stopped. *)
Definition heard (event : jsevent) : option string :=
  match event with
  | AnEvent ev =>
      if dispatchable ev && negb (ev_stop_propagation ev)
      then Some (ev_type ev) else None
  | NotAnEvent => None
  end.

(** The type of the entries an [invokeEvent] removes, if it gets that
    far: the type of an event that can be dispatched. *)
Definition accepted (event : jsevent) : option string :=
  match event with
  | AnEvent ev => if dispatchable ev then Some (ev_type ev) else None
  | NotAnEvent => None
  end.

(** Operations that end the invocation: [end], a click on the close,
    confirm or decline button or on the overlay, and a click event
    dispatched on [#modal] by hand (the overlay's listener answers it
    with [end]). *)
Definition closing (o : op) : bool :=
  match o with
  | CallEnd => true
  | Click OnContent => false
  | Click _ => true
  | CallInvokeEvent event =>
      match heard event with
      | Some ty => String.eqb ty "click"
      | None => false
      end
  | _ => false
  end.

(** Operations that leave the invocation running and do not dispatch
    [modalEnd]: among the calls of [invokeEvent], those that are
    rejected, and those of an event of another type than [modalEnd]
    that is not a click event whose listeners run. *)

Definition quiet (o : op) : bool :=
  match o with
  | CallEnd => false
  | Click OnContent => true
  | Click _ => false
  | CallInvokeEvent event =>
      match accepted event with
      | Some ty =>
          negb (String.eqb ty "modalEnd") &&
          match heard event with
          | Some ty' => negb (String.eqb ty' "click")
          | None => true
          end
      | None => true
      end
  | _ => true
  end.


(** ** Pure descriptions of the effects, used by the proofs *)

Definition att (r : registered) : listener := Att (r_type r) (r_listener r).

(** The state with a given registry, mirrored by the listeners of [#modal]. *)
Definition with_callbacks (regs : list registered) (st : state) : state :=
  set_modal (set_listeners (OverlayClick :: map att regs))
            (set_registeredListeners regs st).

Definition logged (t : list (nat * bool)) (st : state) : state :=
  set_calls (calls st ++ t) st.

Definition has_type (ty : string) (r : registered) : bool :=
  String.eqb (r_type r) ty.

Definition is_registered (regs : list registered) (r : registered) : bool :=
  existsb (fun r' => same_listener (r_type r) (r_listener r) (att r')) regs.

Definition is_user (a : action) : bool :=
  match a with
  | UserFn _ => true
  | CleanupFn => false
  end.

(** The calls recorded when a closure runs, and whether it runs the
    cleanup function. *)
Fixpoint group_calls (active : bool) (l : list action) : list (nat * bool) :=
  match l with
  | [] => []
  | UserFn f :: rest =>
      (cb_name f, active) :: (if cb_throws f then [] else group_calls active rest)
  | CleanupFn :: rest => group_calls active rest
  end.

Fixpoint group_cleans (l : list action) : bool :=
  match l with
  | [] => false
  | UserFn f :: rest => if cb_throws f then false else group_cleans rest
  | CleanupFn :: _ => true
  end.

Definition cleans (r : registered) : bool := group_cleans (c_actions (r_listener r)).

Fixpoint dispatch_calls (active : bool) (rs : list registered) : list (nat * bool) :=
  match rs with
  | [] => []
  | r :: rest =>
      group_calls active (c_actions (r_listener r)) ++
      (if cleans r then [] else dispatch_calls active rest)
  end.

Definition closures_effect (rs : list registered) (st : state) : state :=
  let st' := logged (dispatch_calls (isActive st) rs) st in
  if existsb cleans rs then with_callbacks [] st' else st'.

Definition after_dispatch (ty : string) (st : state) : state :=
  closures_effect (filter (has_type ty) (registeredListeners st)) st.

Definition detach (ty : string) (st : state) : state :=
  with_callbacks (filter (fun r => negb (has_type ty r)) (registeredListeners st)) st.

Definition after_invokeEvent (ty : string) (st : state) : state :=
  detach ty (after_dispatch ty st).

Definition refocused (st : state) : state :=
  match preModalFocusTarget st with
  | Some e => snd (focus e st)
  | None => st
  end.

Definition after_end (st : state) : state :=
  set_isActive false
    (after_invokeEvent "modalEnd"
       (set_preModalFocusTarget None
          (refocused (set_modal (set_modal_display None) st)))).

(** The functions of a group that get called: up to and including the
    first one that throws. *)
Fixpoint until_throw (l : list callback) : list callback :=
  match l with
  | [] => []
  | f :: rest => f :: (if cb_throws f then [] else until_throw rest)
  end.

Definition seen (active : bool) (l : list callback) : list (nat * bool) :=
  map (fun f => (cb_name f, active)) l.

(** The entry [registerActions] creates, if any. *)
Definition new_entries (ty : string) (a : actions_val) (id : nat) : list registered :=
  match a with
  | ActsArray l => [{| r_type := ty; r_listener := {| c_id := id; c_actions := l |} |}]
  | _ => []
  end.

Definition after_registerActions (ty : string) (a : actions_val) (st : state) : state :=
  match a with
  | ActsArray _ =>
      set_nextClosure (S (nextClosure st))
        (with_callbacks (registeredListeners st ++ new_entries ty a (nextClosure st)) st)
  | _ => st
  end.

(** The entries [start] registers, the first closure having identity [n]. *)
Definition start_entries (n : nat)
    (onEndActions onConfirmActions onDeclineActions onStartActions : actions_arg)
  : list registered :=
  let S := new_entries "modalStart" (pass onStartActions) n in
  let n1 := n + List.length S in
  let C := new_entries "modalConfirm" (pass onConfirmActions) n1 in
  let n2 := n1 + List.length C in
  let D := new_entries "modalDecline" (pass onDeclineActions) n2 in
  let n3 := n2 + List.length D in
  let E := new_entries "modalEnd" (pass onEndActions) n3 in
  let n4 := n3 + List.length E in
  S ++ C ++ D ++ E ++ new_entries "modalEnd" (ActsArray [CleanupFn]) n4.

Definition display_for (a : actions_arg) : option string :=
  if is_undefined a then None else Some "block".

(** [this.#getModalChild(cls).innerHTML = l] and the like, on the
    subtree. *)
Definition assign_innerHTML (cls : string) (l : markup) (m : dom) : dom :=
  match modal_child cls m with
  | Some c => set_innerHTML c l m
  | None => m
  end.

Definition assign_display (cls : string) (v : option string) (m : dom) : dom :=
  match modal_child cls m with
  | Some c => set_display c v m
  | None => m
  end.

(** The subtree after a label setter got [v]; [default] is the label for
    a falsy [v]. *)
Definition label_assigned (cls : string) (default : string) (v : jsval) (m : dom)
  : dom :=
  match modal_child cls m with
  | Some c =>
      if has_innerText c m
      then match ToString (if truthy v then v else JString default) with
           | Normal s => set_innerText c s m
           | Throw _ => m
           end
      else m
  | None => m
  end.

(** [start], up to the registration of the cleanup closure. *)
Definition registering (title description : markup)
    (onEndActions onConfirmActions onDeclineActions onStartActions : actions_arg)
    (st : state) : state :=
  after_registerActions "modalEnd" (ActsArray [CleanupFn])
    (after_registerActions "modalEnd" (pass onEndActions)
       (after_registerActions "modalDecline" (pass onDeclineActions)
          (after_registerActions "modalConfirm" (pass onConfirmActions)
             (after_registerActions "modalStart" (pass onStartActions)
                (set_modal (assign_innerHTML "md-description" description)
                   (set_modal (assign_innerHTML "md-title" title) st)))))).

(** [start], from the display of the buttons on. *)
Definition opened (onConfirmActions onDeclineActions : actions_arg) (st : state)
  : state :=
  let s1 := set_modal (assign_display "md-confirm" (display_for onConfirmActions)) st in
  let s2 := set_modal (assign_display "md-decline" (display_for onDeclineActions)) s1 in
  let s3 := set_modal (set_modal_display (Some "block")) s2 in
  let s4 := set_preModalFocusTarget (activeElement s3) s3 in
  let s5 := set_activeElement (Some MdContent) s4 in
  set_isActive true (after_invokeEvent "modalStart" s5).

Definition after_start (title description : markup)
    (onEndActions onConfirmActions onDeclineActions onStartActions : actions_arg)
    (st : state) : state :=
  opened onConfirmActions onDeclineActions
    (registering title description
       onEndActions onConfirmActions onDeclineActions onStartActions st).

Definition is_overlay (t : click_target) : bool :=
  match t with
  | OnOverlay => true
  | _ => false
  end.

(** The state after the listener of the clicked element. *)
Definition after_button (t : click_target) (st : state) : state :=
  match t with
  | OnClose => after_end st
  | OnConfirm => after_end (after_invokeEvent "modalConfirm" st)
  | OnDecline => after_end (after_invokeEvent "modalDecline" st)
  | OnOverlay | OnContent => st
  end.

Definition after_click (t : click_target) (st : state) : state :=
  let st1 := after_button t st in
  let st2 := if is_overlay t then after_end st1 else st1 in
  closures_effect
    (filter (is_registered (registeredListeners st2))
            (filter (has_type "click") (registeredListeners st1))) st2.

(** The class names of the call sites of [#getModalChild]. *)
Definition looked_up (cls : string) : Prop :=
  cls = "md-title" \/ cls = "md-description" \/ cls = "md-confirm" \/
  cls = "md-decline" \/ cls = "md-content".

(** What a setter returns: the exception of the conversion, when the
    element found has the accessor and the value does not convert. *)
Definition label_completion (cls default : string) (v : jsval) (m : dom)
  : completion unit :=
  match modal_child cls m with
  | Some c =>
      if has_innerText c m
      then match ToString (if truthy v then v else JString default) with
           | Normal _ => Normal tt
           | Throw e => Throw e
           end
      else Normal tt
  | None => Throw TypeError
  end.


(** The values that are neither objects nor symbols: undefined, null,
    booleans, numbers and strings. *)
Definition plain_value (v : jsval) : bool :=
  match v with
  | JSymbol | JObject _ | JDocumentAll => false
  | _ => true
  end.

(** [#getModalChild] finds the buttons [#buildModal] built: no element of
    the markup has the class of one of them. *)
Definition own_buttons (st : state) : Prop :=
  modal_child "md-confirm" (modal st) = Some (Built Confirm) /\
  modal_child "md-decline" (modal st) = Some (Built Decline).

Definition is_object (v : jsval) : bool :=
  match v with
  | JObject _ | JDocumentAll => true
  | _ => false
  end.

Definition assigns_object (o : op) : bool :=
  match o with
  | AssignConfirmText v | AssignDeclineText v => is_object v
  | _ => false
  end.

(** No element of the fragment has the class. *)
Definition free_of (cls : string) (l : markup) : Prop := first_with cls l = None.

(** Markup for the title (for the description) in which [#getModalChild]
    finds nothing: no element of a class it looks up after the title
    (after the description). *)
Definition plain_title (l : markup) : Prop :=
  free_of "md-description" l /\ free_of "md-confirm" l /\ free_of "md-decline" l.

Definition plain_description (l : markup) : Prop :=
  free_of "md-confirm" l /\ free_of "md-decline" l.

Definition plain_markup (st : state) : Prop :=
  plain_title (title_children (modal st)) /\
  plain_description (description_children (modal st)).

(** The state after [invokeEvent] of a click event whose listeners run:
    the overlay's listener calls [end], then the closures registered for
    clicks and still attached run, and the entries registered for clicks
    are removed. *)
Definition after_click_event (st : state) : state :=
  detach "click"
    (closures_effect
       (filter (is_registered (registeredListeners (after_end st)))
               (filter (has_type "click") (registeredListeners st)))
       (after_end st)).

(** The state after [invokeEvent], whatever it is given. *)
Definition after_invoke (event : jsevent) (st : state) : state :=
  match accepted event with
  | None => st
  | Some ty =>
      match heard event with
      | None => detach ty st
      | Some _ =>
          if String.eqb "click" ty then after_click_event st
          else after_invokeEvent ty st
      end
  end.

(** ** Well-formed states *)

Definition r_id (r : registered) : nat := c_id (r_listener r).

(** The cleanup function is found only in closures registered for
    [modalEnd]. *)
Definition tidy (r : registered) : Prop :=
  r_type r = "modalEnd" \/ forallb is_user (c_actions (r_listener r)) = true.

Record wf (st : state) : Prop := {
  wf_mirror : listeners (modal st) = OverlayClick :: map att (registeredListeners st);
  wf_nodup : NoDup (map r_id (registeredListeners st));
  wf_fresh : Forall (fun r => r_id r < nextClosure st) (registeredListeners st);
  wf_tidy : Forall tidy (registeredListeners st)
}.

(** The cleanup closure of [start] is registered. *)
Definition has_cleanup (st : state) : Prop :=
  exists r, In r (registeredListeners st) /\ r_type r = "modalEnd" /\ cleans r = true.

(** An invocation is running: the instance is active, the cleanup
    closure of its [start] is registered, and [target] is the recorded
    focus target. *)
Definition running (target : option element) (st : state) : Prop :=
  wf st /\ isActive st = true /\ has_cleanup st /\ preModalFocusTarget st = target.


(** The invocation is over: nothing is registered or attached any more,
    and a page element recorded as [target] holds focus again. *)
Definition ended (target : option element) (st : state) : Prop :=
  wf st /\ registeredListeners st = [] /\
  listeners (modal st) = [OverlayClick] /\ isActive st = false /\
  (forall a, target = Some (PageElement a) -> activeElement st = Some (PageElement a)).

(** ** Descriptions used by the properties beyond the claims *)

(** The subtree without its listeners: what the page shows. *)
Definition face (st : state) : dom := set_listeners [] (modal st).

Definition assigns_confirmText (o : op) : bool :=
  match o with
  | AssignConfirmText _ => true
  | _ => false
  end.

Definition assigns_declineText (o : op) : bool :=
  match o with
  | AssignDeclineText _ => true
  | _ => false
  end.

Definition calls_start (o : op) : bool :=
  match o with
  | CallStart _ _ _ _ _ _ => true
  | _ => false
  end.

(** The overlay has the inline display "block" exactly while the dialog
    is active; an inactive dialog records no focus target and has no
    cleanup closure registered. *)
Definition settled (st : state) : Prop :=
  modal_display (modal st) = (if isActive st then Some "block" else None) /\
  (isActive st = false ->
   preModalFocusTarget st = None /\
   existsb cleans (registeredListeners st) = false).

End ModalElement.

Import ModalElement.

(** * Basic facts *)

Ltac monad := unfold bind, ret, get, modify, throw, report; cbn.

Section Lists.
Context {A : Type}.

Lemma filter_all (p : A -> bool) (l : list A) :
  (forall x, In x l -> p x = true) -> filter p l = l.
Proof.
  induction l as [|x l IH]; intros H; cbn; [reflexivity|].
  rewrite (H x (or_introl eq_refl)), IH; [reflexivity|].
  intros y Hy; apply H; right; exact Hy.
Qed.

Lemma filter_none (p : A -> bool) (l : list A) :
  (forall x, In x l -> p x = false) -> filter p l = [].
Proof.
  induction l as [|x l IH]; intros H; cbn; [reflexivity|].
  rewrite (H x (or_introl eq_refl)); apply IH.
  intros y Hy; apply H; right; exact Hy.
Qed.

Lemma nth_error_last (l : list A) (x : A) :
  nth_error (l ++ [x]) (List.length (l ++ [x]) - 1) = Some x.
Proof.
  rewrite length_app; cbn.
  replace (List.length l + 1 - 1) with (List.length l) by lia.
  rewrite nth_error_app2 by lia.
  now rewrite Nat.sub_diag.
Qed.

End Lists.

Lemma logged_nil st : logged [] st = st.
Proof. destruct st; unfold logged, set_calls; cbn. now rewrite app_nil_r. Qed.

Lemma logged_logged t1 t2 st : logged t2 (logged t1 st) = logged (t1 ++ t2) st.
Proof. unfold logged, set_calls; cbn. now rewrite app_assoc. Qed.

Lemma with_callbacks_self st :
  wf st -> with_callbacks (registeredListeners st) st = st.
Proof.
  intros [H _ _ _].
  destruct st as [m t r a e n c]; destruct m; cbn in *.
  unfold with_callbacks, set_modal, set_registeredListeners, set_listeners; cbn.
  now rewrite <- H.
Qed.

Lemma wf_logged t st : wf st -> wf (logged t st).
Proof. intros [H1 H2 H3 H4]; constructor; assumption. Qed.

Lemma wf_with_callbacks regs st :
  NoDup (map r_id regs) ->
  Forall (fun r => r_id r < nextClosure st) regs ->
  Forall tidy regs ->
  wf (with_callbacks regs st).
Proof. intros H2 H3 H4; constructor; cbn; auto. Qed.

Lemma wf_cleaned st : wf (with_callbacks [] st).
Proof. apply wf_with_callbacks; cbn; constructor. Qed.

Lemma wf_new g focused : wf (new_ModalElement g focused).
Proof. constructor; cbn; constructor. Qed.

(** * Callbacks and the cleanup function *)

Lemma run_callback_spec f st :
  run_callback f st =
  (if cb_throws f then Throw (Thrown (cb_name f)) else Normal tt,
   logged [(cb_name f, isActive st)] st).
Proof. unfold run_callback; monad. now destruct (cb_throws f). Qed.

Lemma forEach_modify {A : Type} (g : A -> state -> state) (l : list A) st :
  forEach l (fun x => modify (g x)) st =
  (Normal tt, fold_left (fun s x => g x s) l st).
Proof.
  revert st; induction l as [|x l IH]; intros st; cbn; [reflexivity|].
  monad. apply IH.
Qed.

Lemma same_listener_att r : same_listener (r_type r) (r_listener r) (att r) = true.
Proof. cbn. now rewrite String.eqb_refl, Nat.eqb_refl. Qed.

Lemma remove_registered regs : forall st,
  listeners (modal st) = OverlayClick :: map att regs ->
  fold_left (fun s r => set_modal (removeEventListener (r_type r) (r_listener r)) s)
            regs st
  = set_modal (set_listeners [OverlayClick]) st.
Proof.
  induction regs as [|r regs IH]; intros st H; cbn.
  - destruct st as [m t rg a e n c]; destruct m; cbn in *. now subst.
  - rewrite IH.
    + reflexivity.
    + cbn. rewrite H. cbn [remove_listener same_listener].
      fold (att r). cbn [map remove_listener same_listener].
      now rewrite same_listener_att.
Qed.

Lemma cleanup_spec st :
  listeners (modal st) = OverlayClick :: map att (registeredListeners st) ->
  cleanup st = (Normal tt, with_callbacks [] st).
Proof.
  intros H. unfold cleanup, bind, get.
  rewrite forEach_modify, (remove_registered _ _ H). reflexivity.
Qed.

Lemma invoke_spec l : forall st,
  listeners (modal st) = OverlayClick :: map att (registeredListeners st) ->
  snd (forEach l call st) =
  let st' := logged (group_calls (isActive st) l) st in
  if group_cleans l then with_callbacks [] st' else st'.
Proof.
  induction l as [|a l IH]; intros st H.
  - cbn. now rewrite logged_nil.
  - destruct a as [f|]; cbn [forEach call group_calls group_cleans].
    + unfold bind. rewrite run_callback_spec.
      destruct (cb_throws f); cbn; [reflexivity|].
      rewrite IH by exact H. cbn. rewrite logged_logged. reflexivity.
    + unfold bind. rewrite (cleanup_spec _ H).
      rewrite IH by reflexivity. cbn.
      destruct (group_cleans l); reflexivity.
Qed.

(** * Dispatch *)

Lemma existsb_map {A B : Type} (f : B -> bool) (g : A -> B) (l : list A) :
  existsb f (map g l) = existsb (fun x => f (g x)) l.
Proof. induction l as [|x l IH]; cbn; [reflexivity|now rewrite IH]. Qed.

Lemma still_attached_registered r st :
  wf st ->
  still_attached (att r) (listeners (modal st)) =
  is_registered (registeredListeners st) r.
Proof.
  intros W. rewrite (wf_mirror _ W). cbn. now rewrite existsb_map.
Qed.

Lemma is_registered_In regs r : In r regs -> is_registered regs r = true.
Proof.
  intros H. apply existsb_exists. exists r. split; [exact H|apply same_listener_att].
Qed.

Lemma closures_effect_nil st : closures_effect [] st = st.
Proof. unfold closures_effect; cbn. apply logged_nil. Qed.

Lemma inner_invoke_spec overlay b rs : forall st,
  wf st ->
  inner_invoke overlay b (map att rs) st =
  (Normal tt,
   closures_effect (filter (is_registered (registeredListeners st)) rs) st).
Proof.
  induction rs as [|r rs IH]; intros st W.
  - cbn [map inner_invoke filter]. now rewrite closures_effect_nil.
  - cbn [map inner_invoke filter]. unfold bind at 1, get.
    fold (att r). rewrite (still_attached_registered r st W).
    destruct (is_registered (registeredListeners st) r) eqn:E.
    + unfold bind at 1, report. cbn [att invoke c_actions].
      unfold invoke. rewrite (invoke_spec _ _ (wf_mirror _ W)). cbn zeta.
      change (group_cleans (c_actions (r_listener r))) with (cleans r).
      unfold closures_effect. cbn [existsb dispatch_calls].
      destruct (cleans r) eqn:C.
      * rewrite IH by apply wf_cleaned.
        cbn [registeredListeners with_callbacks set_modal set_registeredListeners].
        rewrite filter_none by reflexivity. rewrite closures_effect_nil.
        cbn [orb]. now rewrite app_nil_r.
      * rewrite IH by now apply wf_logged.
        unfold closures_effect. cbn [orb].
        rewrite logged_logged. reflexivity.
    + unfold bind at 1, ret. apply IH, W.
Qed.

Lemma filter_matches_att ty regs :
  filter (matches ty) (map att regs) = map att (filter (has_type ty) regs).
Proof.
  induction regs as [|r regs IH]; cbn; [reflexivity|].
  unfold has_type. destruct (String.eqb (r_type r) ty); cbn; now rewrite IH.
Qed.

Lemma wf_same st st' :
  listeners (modal st') = listeners (modal st) ->
  registeredListeners st' = registeredListeners st ->
  nextClosure st' = nextClosure st ->
  wf st -> wf st'.
Proof.
  intros H1 H2 H3 [W1 W2 W3 W4].
  constructor; rewrite ?H1, ?H2, ?H3; assumption.
Qed.

Lemma wf_closures_effect rs st : wf st -> wf (closures_effect rs st).
Proof.
  intros W. unfold closures_effect.
  destruct (existsb cleans rs); [apply wf_cleaned|now apply wf_logged].
Qed.

Lemma wf_after_dispatch ty st : wf st -> wf (after_dispatch ty st).
Proof. apply wf_closures_effect. Qed.

(** A dispatch of an event that is not a click runs the closures
    registered for its type, in order, until one runs the cleanup. *)
Lemma dispatch_spec overlay ty b st :
  wf st -> String.eqb "click" ty = false ->
  dispatch overlay ty b st = (Normal tt, after_dispatch ty st).
Proof.
  intros W Hty. unfold dispatch, bind, get.
  rewrite (wf_mirror _ W). cbn [filter matches]. rewrite Hty.
  rewrite filter_matches_att, inner_invoke_spec by exact W.
  unfold after_dispatch.
  rewrite filter_all; [reflexivity|].
  intros r Hr. apply is_registered_In. apply filter_In in Hr. tauto.
Qed.

(** * The removal loop of [invokeEvent] *)

Lemma nth_error_cut {A : Type} (l : list A) : forall i x,
  nth_error l i = Some x ->
  firstn (S i) l = firstn i l ++ [x] /\ skipn i l = x :: skipn (S i) l.
Proof.
  induction l as [|y l IH]; intros [|i] x H; cbn in H; try discriminate.
  - injection H as ->. now cbn.
  - destruct (IH i x H) as [H1 H2]. split.
    + cbn [firstn app]. cbn [firstn] in H1. now rewrite H1.
    + exact H2.
Qed.

Lemma remove_listener_nth regs : forall i el,
  NoDup (map r_id regs) ->
  nth_error regs i = Some el ->
  remove_listener (r_type el) (r_listener el) (map att regs) =
  map att (splice i regs).
Proof.
  induction regs as [|r regs IH]; intros [|i] el ND H; cbn in H; try discriminate.
  - injection H as ->. cbn [map remove_listener].
    now rewrite same_listener_att.
  - cbn [map remove_listener]. inversion ND as [|? ? Hnotin ND']; subst.
    assert (Hid : Nat.eqb (c_id (r_listener el)) (c_id (r_listener r)) = false).
    { apply Nat.eqb_neq. intros Heq. apply Hnotin.
      apply nth_error_In in H. apply in_map_iff. exists el. split; [|exact H].
      unfold r_id. congruence. }
    cbn [att same_listener]. rewrite Hid, andb_false_r.
    unfold splice. cbn [firstn skipn app map]. f_equal.
    apply (IH i el ND' H).
Qed.

Lemma splice_decompose {A : Type} (l : list A) i x :
  nth_error l i = Some x -> l = firstn i l ++ x :: skipn (S i) l.
Proof.
  intros H. destruct (nth_error_cut l i x H) as [_ H2].
  rewrite <- H2. symmetry. apply firstn_skipn.
Qed.

Lemma wf_splice st i el :
  wf st -> nth_error (registeredListeners st) i = Some el ->
  wf (with_callbacks (splice i (registeredListeners st)) st).
Proof.
  intros [W1 W2 W3 W4] H.
  pose proof (splice_decompose _ _ _ H) as D.
  unfold splice. apply wf_with_callbacks.
  - rewrite D in W2. rewrite map_app in *. cbn [map] in W2.
    now apply NoDup_remove_1 in W2.
  - rewrite D in W3. apply Forall_app in W3 as [Wa Wb].
    apply Forall_app; split; [exact Wa|now inversion Wb].
  - rewrite D in W4. apply Forall_app in W4 as [Wa Wb].
    apply Forall_app; split; [exact Wa|now inversion Wb].
Qed.

Lemma removal_loop_spec ty n : forall st,
  wf st -> n <= List.length (registeredListeners st) ->
  removal_loop ty n st =
  (Normal tt,
   with_callbacks
     (filter (fun r => negb (has_type ty r)) (firstn n (registeredListeners st))
      ++ skipn n (registeredListeners st)) st).
Proof.
  induction n as [|i IH]; intros st W Hn.
  - cbn. now rewrite with_callbacks_self.
  - cbn [removal_loop]. unfold bind at 1, get. cbn beta iota.
    destruct (nth_error (registeredListeners st) i) as [el|] eqn:E.
    2:{ apply nth_error_None in E. lia. }
    destruct (nth_error_cut _ _ _ E) as [F S'].
    rewrite F, filter_app. cbn [filter]. fold (has_type ty el).
    destruct (has_type ty el) eqn:T.
    + monad.
      assert (Est : set_modal (removeEventListener (r_type el) (r_listener el))
                (set_registeredListeners (splice i (registeredListeners st)) st)
              = with_callbacks (splice i (registeredListeners st)) st).
      { unfold with_callbacks, removeEventListener, set_modal. cbn.
        rewrite (wf_mirror _ W). cbn [remove_listener same_listener].
        rewrite (remove_listener_nth _ _ _ (wf_nodup _ W) E). reflexivity. }
      rewrite Est. rewrite IH.
      * cbn [registeredListeners with_callbacks set_modal set_registeredListeners].
        unfold splice.
        assert (Li : List.length (firstn i (registeredListeners st)) = i).
        { apply firstn_length_le. lia. }
        rewrite firstn_app, skipn_app, Li, Nat.sub_diag.
        rewrite firstn_firstn, Nat.min_id. cbn [firstn skipn].
        rewrite skipn_all2 by lia. rewrite !app_nil_r. cbn [app]. reflexivity.
      * now apply (wf_splice st i el).
      * cbn. unfold splice. rewrite length_app, firstn_length_le by lia. lia.
    + monad. rewrite IH by (auto; lia). rewrite S'.
      cbn [negb app]. now rewrite <- app_assoc.
Qed.

Lemma removal_loop_all ty st :
  wf st ->
  removal_loop ty (List.length (registeredListeners st)) st =
  (Normal tt, detach ty st).
Proof.
  intros W. rewrite removal_loop_spec by auto.
  rewrite firstn_all, skipn_all, app_nil_r. reflexivity.
Qed.

(** The three ways of an [invokeEvent]: the event is rejected by line 335,
    or its propagation is stopped and only the loop has an effect, or
    its listeners run. *)
Lemma heard_event event ty :
  heard event = Some ty ->
  exists ev, event = AnEvent ev /\ ev_type ev = ty /\
             dispatchable ev = true /\ ev_stop_propagation ev = false.
Proof.
  destruct event as [ev|]; unfold heard; [|discriminate].
  destruct (dispatchable ev) eqn:D; cbn [andb]; [|discriminate].
  destruct (ev_stop_propagation ev) eqn:S; cbn [negb]; [discriminate|].
  intros [= <-]. exists ev. auto.
Qed.

Lemma heard_accepted event ty : heard event = Some ty -> accepted event = Some ty.
Proof.
  intros H. apply heard_event in H as (ev & -> & <- & D & _).
  unfold accepted. now rewrite D.
Qed.

Lemma invokeEvent_on_rejected overlay event st :
  accepted event = None ->
  invokeEvent_on overlay event st =
  (Throw (match event with AnEvent _ => InvalidStateError | NotAnEvent => TypeError end),
   st).
Proof.
  destruct event as [ev|]; unfold accepted; [|reflexivity].
  unfold invokeEvent_on, bind, dispatchEvent.
  destruct (dispatchable ev); [discriminate|reflexivity].
Qed.

Lemma invokeEvent_on_stopped overlay event ty st :
  wf st -> accepted event = Some ty -> heard event = None ->
  invokeEvent_on overlay event st = (Normal tt, detach ty st).
Proof.
  intros W. destruct event as [ev|]; unfold accepted, heard; [|discriminate].
  unfold invokeEvent_on, bind, dispatchEvent.
  destruct (dispatchable ev); cbn [andb]; [|discriminate].
  destruct (ev_stop_propagation ev); cbn [negb]; [|discriminate].
  intros [= <-] _. unfold ret, get. now apply removal_loop_all.
Qed.

Lemma invokeEvent_on_dispatch overlay event ty st :
  heard event = Some ty ->
  invokeEvent_on overlay event st =
  (dispatch overlay ty true ;;
   n <- get (fun st => List.length (registeredListeners st)) ;;
   removal_loop ty n) st.
Proof.
  intros H. apply heard_event in H as (ev & -> & <- & D & S).
  unfold invokeEvent_on, dispatchEvent. now rewrite D, S.
Qed.

Lemma invokeEvent_on_spec overlay event ty st :
  wf st -> heard event = Some ty -> String.eqb "click" ty = false ->
  invokeEvent_on overlay event st = (Normal tt, after_invokeEvent ty st).
Proof.
  intros W H Hty. rewrite (invokeEvent_on_dispatch overlay event ty st H).
  unfold bind.
  rewrite dispatch_spec by assumption.
  unfold get. now rewrite removal_loop_all by now apply wf_after_dispatch.
Qed.

(** * [registerActions] *)

Lemma fresh_not_attached ty c regs :
  Forall (fun r => r_id r < c_id c) regs ->
  existsb (same_listener ty c) (OverlayClick :: map att regs) = false.
Proof.
  intros H. cbn [existsb same_listener orb]. rewrite existsb_map.
  apply not_true_is_false. intros E. apply existsb_exists in E as [r [Hr E]].
  rewrite Forall_forall in H. specialize (H r Hr).
  cbn in E. apply andb_true_iff in E as [_ E]. apply Nat.eqb_eq in E.
  unfold r_id in H. lia.
Qed.

Lemma registerActions_spec ty a st :
  wf st ->
  registerActions ty a st = (Normal tt, after_registerActions ty a st).
Proof.
  intros W. destruct a as [| |l]; try reflexivity.
  unfold registerActions. monad.
  rewrite nth_error_last. cbn [r_listener].
  unfold addEventListener, after_registerActions, with_callbacks, set_modal,
    set_nextClosure, set_registeredListeners.
  cbn [modal preModalFocusTarget registeredListeners isActive activeElement
       nextClosure calls new_entries].
  rewrite (wf_mirror _ W), fresh_not_attached by exact (wf_fresh _ W).
  unfold set_listeners. cbn [title_children description_children
    confirm_innerText decline_innerText confirm_display decline_display
    modal_display md_style listeners].
  rewrite map_app. reflexivity.
Qed.

Lemma wf_after_registerActions ty a st :
  wf st ->
  (forall l, a = ActsArray l -> ty = "modalEnd" \/ forallb is_user l = true) ->
  wf (after_registerActions ty a st).
Proof.
  intros [W1 W2 W3 W4] T. destruct a as [| |l]; try (constructor; assumption).
  constructor; cbn.
  - reflexivity.
  - rewrite map_app. cbn. apply NoDup_app.
    + exact W2.
    + repeat constructor. intros [].
    + intros x Hx [<-|[]]. apply in_map_iff in Hx as [r [Hr Hin]].
      rewrite Forall_forall in W3. specialize (W3 r Hin). lia.
  - apply Forall_app; split.
    + eapply Forall_impl; [|exact W3]. cbn. intros; lia.
    + repeat constructor.
  - apply Forall_app; split; [exact W4|].
    constructor; [exact (T l eq_refl)|constructor].
Qed.

Lemma pass_user a l : pass a = ActsArray l -> forallb is_user l = true.
Proof.
  destruct a as [| |l']; cbn; try discriminate.
  intros [= <-]. apply forallb_forall. intros x Hx.
  apply in_map_iff in Hx as [f [<- _]]. reflexivity.
Qed.

Lemma wf_after_registerActions_pass ty a st :
  wf st -> wf (after_registerActions ty (pass a) st).
Proof.
  intros W. apply wf_after_registerActions; [exact W|].
  intros l H. right. exact (pass_user a l H).
Qed.

Lemma wf_after_registerActions_cleanup st :
  wf st -> wf (after_registerActions "modalEnd" (ActsArray [CleanupFn]) st).
Proof.
  intros W. apply wf_after_registerActions; [exact W|]. intros; now left.
Qed.

(** * [invokeEvent] and [end] *)

Lemma NoDup_ids_filter (keep : registered -> bool) (regs : list registered) :
  NoDup (map r_id regs) -> NoDup (map r_id (filter keep regs)).
Proof.
  induction regs as [|r regs IH]; cbn; intros H; [constructor|].
  inversion H as [|? ? Hr Hregs]; subst.
  destruct (keep r); cbn; [|now apply IH].
  constructor; [|now apply IH].
  intros Hin. apply Hr. apply in_map_iff in Hin as [r' [Hid Hin]].
  apply filter_In in Hin as [Hin _]. apply in_map_iff. now exists r'.
Qed.

Lemma wf_detach ty st : wf st -> wf (detach ty st).
Proof.
  intros [W1 W2 W3 W4]. unfold detach. apply wf_with_callbacks.
  - now apply NoDup_ids_filter.
  - apply Forall_forall. intros r Hr. apply filter_In in Hr as [Hr _].
    rewrite Forall_forall in W3. now apply W3.
  - apply Forall_forall. intros r Hr. apply filter_In in Hr as [Hr _].
    rewrite Forall_forall in W4. now apply W4.
Qed.

Lemma wf_after_invokeEvent ty st : wf st -> wf (after_invokeEvent ty st).
Proof. intros W. now apply wf_detach, wf_after_dispatch. Qed.

Lemma focus_spec e st : focus e st = (Normal tt, snd (focus e st)).
Proof.
  destruct e; cbn; [|reflexivity].
  unfold bind, get.
  now destruct (modal_display (modal st)), (md_style (modal st)).
Qed.

Lemma focus_frame e st :
  modal (snd (focus e st)) = modal st /\
  registeredListeners (snd (focus e st)) = registeredListeners st /\
  nextClosure (snd (focus e st)) = nextClosure st /\
  isActive (snd (focus e st)) = isActive st /\
  preModalFocusTarget (snd (focus e st)) = preModalFocusTarget st /\
  calls (snd (focus e st)) = calls st.
Proof.
  destruct e; cbn; [|tauto].
  unfold bind, get.
  destruct (modal_display (modal st)), (md_style (modal st)); cbn; tauto.
Qed.

Lemma wf_focus e st : wf st -> wf (snd (focus e st)).
Proof.
  destruct (focus_frame e st) as (H1 & H2 & H3 & _).
  apply wf_same; [now rewrite H1|assumption|assumption].
Qed.

Lemma wf_refocused st : wf st -> wf (refocused st).
Proof.
  intros W. unfold refocused.
  destruct (preModalFocusTarget st); [now apply wf_focus|exact W].
Qed.

Lemma end_on_spec overlay st :
  wf st -> end_on overlay st = (Normal tt, after_end st).
Proof.
  intros W. unfold end_on. unfold bind at 1, modify at 1. cbn iota beta.
  unfold bind at 1, get at 1. cbn iota beta.
  cbn [preModalFocusTarget set_modal].
  assert (W1 : wf (refocused (set_modal (set_modal_display None) st))).
  { apply wf_refocused. revert W. now apply wf_same. }
  unfold after_end. unfold refocused in *.
  cbn [preModalFocusTarget set_modal] in *.
  unfold bind at 1.
  destruct (preModalFocusTarget st) as [e|].
  - rewrite focus_spec. unfold bind at 1, modify at 1. cbn iota beta.
    unfold bind at 1.
    rewrite (invokeEvent_on_spec overlay (AnEvent onEnd) "modalEnd");
      [reflexivity| |reflexivity|reflexivity].
    revert W1. now apply wf_same.
  - unfold ret at 1. unfold bind at 1, modify at 1. cbn iota beta.
    unfold bind at 1.
    rewrite (invokeEvent_on_spec overlay (AnEvent onEnd) "modalEnd");
      [reflexivity| |reflexivity|reflexivity].
    revert W1. now apply wf_same.
Qed.

(** What the overlay's listener would call does not matter to [end]. *)
Lemma end_overlay_irrelevant overlay st : wf st -> end_on overlay st = end_ st.
Proof. intros W. unfold end_. now rewrite !end_on_spec. Qed.

Lemma end_spec st : wf st -> end_ st = (Normal tt, after_end st).
Proof. apply end_on_spec. Qed.

Lemma wf_after_end st : wf st -> wf (after_end st).
Proof.
  intros W. unfold after_end.
  match goal with |- wf (set_isActive _ ?s) => apply (wf_same s); try reflexivity end.
  apply wf_after_invokeEvent.
  match goal with |- wf (set_preModalFocusTarget _ ?s) =>
    apply (wf_same s); try reflexivity end.
  apply wf_refocused. revert W. now apply wf_same.
Qed.

(** * [start] *)

Lemma bind_normal {A B : Type} (m : M A) (k : A -> M B) st a st' :
  m st = (Normal a, st') -> bind m k st = k a st'.
Proof. intros H. unfold bind. now rewrite H. Qed.

Lemma bind_modify {B : Type} (f : state -> state) (k : unit -> M B) st :
  bind (modify f) k st = k tt (f st).
Proof. reflexivity. Qed.

Lemma bind_get {A B : Type} (f : state -> A) (k : A -> M B) st :
  bind (get f) k st = k (f st) st.
Proof. reflexivity. Qed.

Lemma wf_set_modal f st :
  (forall d, listeners (f d) = listeners d) -> wf st -> wf (set_modal f st).
Proof. intros H. apply wf_same; cbn; auto. Qed.

Lemma wf_set_isActive b st : wf st -> wf (set_isActive b st).
Proof. now apply wf_same. Qed.

Lemma wf_set_preModalFocusTarget t st : wf st -> wf (set_preModalFocusTarget t st).
Proof. now apply wf_same. Qed.

Lemma wf_set_activeElement e st : wf st -> wf (set_activeElement e st).
Proof. now apply wf_same. Qed.

Lemma listeners_set_innerHTML c l m : listeners (set_innerHTML c l m) = listeners m.
Proof. now destruct c as [[]| |]. Qed.

Lemma listeners_set_display c v m : listeners (set_display c v m) = listeners m.
Proof. now destruct c as [[]| |]. Qed.

Lemma listeners_set_innerText c s m : listeners (set_innerText c s m) = listeners m.
Proof. now destruct c as [[]| |]. Qed.

Lemma listeners_assign_innerHTML cls l m :
  listeners (assign_innerHTML cls l m) = listeners m.
Proof.
  unfold assign_innerHTML.
  destruct (modal_child cls m); [apply listeners_set_innerHTML|reflexivity].
Qed.

Lemma listeners_assign_display cls v m :
  listeners (assign_display cls v m) = listeners m.
Proof.
  unfold assign_display.
  destruct (modal_child cls m); [apply listeners_set_display|reflexivity].
Qed.

Lemma listeners_label_assigned cls default v m :
  listeners (label_assigned cls default v m) = listeners m.
Proof.
  unfold label_assigned. destruct (modal_child cls m) as [c|]; [|reflexivity].
  destruct (has_innerText c m); [|reflexivity].
  destruct (ToString _); [apply listeners_set_innerText|reflexivity].
Qed.

Ltac wf_tac :=
  repeat match goal with
  | |- wf (set_modal _ _) =>
      apply wf_set_modal;
      [intros; first [reflexivity | apply listeners_assign_innerHTML
                     | apply listeners_assign_display
                     | apply listeners_label_assigned]|]
  | |- wf (set_isActive _ _) => apply wf_set_isActive
  | |- wf (set_preModalFocusTarget _ _) => apply wf_set_preModalFocusTarget
  | |- wf (set_activeElement _ _) => apply wf_set_activeElement
  | |- wf (after_registerActions _ (pass _) _) => apply wf_after_registerActions_pass
  | |- wf (after_registerActions _ (ActsArray [CleanupFn]) _) =>
      apply wf_after_registerActions_cleanup
  | |- wf (after_invokeEvent _ _) => apply wf_after_invokeEvent
  | |- wf (after_dispatch _ _) => apply wf_after_dispatch
  | |- wf (after_end _) => apply wf_after_end
  | |- wf (snd (focus _ _)) => apply wf_focus
  | |- wf (refocused _) => apply wf_refocused
  | |- wf (logged _ _) => apply wf_logged
  | |- wf (closures_effect _ _) => apply wf_closures_effect
  | |- wf (detach _ _) => apply wf_detach
  | |- wf (with_callbacks [] _) => apply wf_cleaned
  | |- wf (new_ModalElement _) => apply wf_new
  | |- wf _ => assumption
  end.

Lemma invokeEvent_spec event ty st :
  wf st -> heard event = Some ty -> String.eqb "click" ty = false ->
  invokeEvent event st = (Normal tt, after_invokeEvent ty st).
Proof. apply invokeEvent_on_spec. Qed.

(** The elements the methods look up are always found. *)
Lemma modal_child_title m : modal_child "md-title" m = Some (Built Title).
Proof. reflexivity. Qed.

Lemma modal_child_content m : modal_child "md-content" m = Some (Built Content).
Proof. reflexivity. Qed.

Lemma modal_child_description m :
  modal_child "md-description" m =
  match first_with "md-description" (title_children m) with
  | Some p => Some (InTitle p)
  | None => Some (Built Description)
  end.
Proof. reflexivity. Qed.

Lemma modal_child_confirm m :
  modal_child "md-confirm" m =
  match first_with "md-confirm" (title_children m) with
  | Some p => Some (InTitle p)
  | None =>
      match first_with "md-confirm" (description_children m) with
      | Some p => Some (InDescription p)
      | None => Some (Built Confirm)
      end
  end.
Proof. reflexivity. Qed.

Lemma modal_child_decline m :
  modal_child "md-decline" m =
  match first_with "md-decline" (title_children m) with
  | Some p => Some (InTitle p)
  | None =>
      match first_with "md-decline" (description_children m) with
      | Some p => Some (InDescription p)
      | None => Some (Built Decline)
      end
  end.
Proof. reflexivity. Qed.

Lemma modal_child_found cls m :
  looked_up cls -> exists c, modal_child cls m = Some c.
Proof.
  intros [->|[->|[->|[->| ->]]]].
  - now eexists.
  - rewrite modal_child_description. destruct (first_with _ _); now eexists.
  - rewrite modal_child_confirm.
    destruct (first_with _ (title_children m)); [now eexists|].
    destruct (first_with _ _); now eexists.
  - rewrite modal_child_decline.
    destruct (first_with _ (title_children m)); [now eexists|].
    destruct (first_with _ _); now eexists.
  - now eexists.
Qed.

Lemma getModalChild_spec cls st :
  looked_up cls ->
  exists c, modal_child cls (modal st) = Some c /\
            getModalChild cls st = (Normal c, st).
Proof.
  intros L. destruct (modal_child_found cls (modal st) L) as [c H].
  exists c. split; [exact H|]. unfold getModalChild. rewrite bind_get. now rewrite H.
Qed.

Lemma bind_innerHTML {B : Type} cls l (k : unit -> M B) st :
  looked_up cls ->
  bind (getModalChild cls)
       (fun c => bind (modify (set_modal (set_innerHTML c l))) k) st
  = k tt (set_modal (assign_innerHTML cls l) st).
Proof.
  intros L. destruct (getModalChild_spec cls st L) as (c & H & G).
  erewrite bind_normal by exact G. rewrite bind_modify.
  unfold set_modal, assign_innerHTML. now rewrite H.
Qed.


Lemma bind_display {B : Type} a cls (k : unit -> M B) st :
  looked_up cls ->
  bind (if negb (is_undefined a)
        then c <- getModalChild cls ;;
             modify (set_modal (set_display c (Some "block")))
        else c <- getModalChild cls ;;
             modify (set_modal (set_display c None))) k st
  = k tt (set_modal (assign_display cls (display_for a)) st).
Proof.
  intros L. destruct (getModalChild_spec cls st L) as (c & H & G).
  unfold display_for, set_modal, assign_display. rewrite H.
  destruct (is_undefined a); cbn [negb];
    unfold bind at 1; unfold bind at 1; rewrite G; reflexivity.
Qed.

Lemma focus_content_displayed v st :
  modal_display (modal st) = Some v ->
  focus MdContent st = (Normal tt, set_activeElement (Some MdContent) st).
Proof. intros H. cbn. unfold bind, get. now rewrite H. Qed.

Lemma start_spec t d e c dl s st :
  wf st -> isActive st = false ->
  start t d e c dl s st = (Normal tt, after_start t d e c dl s st).
Proof.
  intros W A. unfold start. rewrite bind_get, A.
  rewrite bind_innerHTML by (unfold looked_up; tauto).
  rewrite bind_innerHTML by (unfold looked_up; tauto).
  erewrite bind_normal by (apply registerActions_spec; wf_tac).
  erewrite bind_normal by (apply registerActions_spec; wf_tac).
  erewrite bind_normal by (apply registerActions_spec; wf_tac).
  erewrite bind_normal by (apply registerActions_spec; wf_tac).
  erewrite bind_normal by (apply registerActions_spec; wf_tac).
  rewrite (bind_display c "md-confirm") by (unfold looked_up; tauto).
  rewrite (bind_display dl "md-decline") by (unfold looked_up; tauto).
  rewrite bind_modify, bind_get, bind_modify.
  erewrite bind_normal by reflexivity.
  erewrite bind_normal.
  2:{ apply (focus_content_displayed "block"). reflexivity. }
  erewrite bind_normal.
  2:{ apply (invokeEvent_spec (AnEvent onStart) "modalStart");
        [wf_tac|reflexivity|reflexivity]. }
  reflexivity.
Qed.

Lemma wf_after_start t d e c dl s st : wf st -> wf (after_start t d e c dl s st).
Proof.
  intros W. unfold after_start, opened, registering. lazy zeta. wf_tac.
Qed.

Lemma start_active t d e c dl s st :
  isActive st = true -> start t d e c dl s st = (Throw already_active, st).
Proof. intros A. unfold start. now rewrite bind_get, A. Qed.

(** * Clicks *)

Lemma dispatch_click b st :
  wf st ->
  dispatch end_ "click" b st =
  (Normal tt,
   let st' := if b then after_end st else st in
   closures_effect
     (filter (is_registered (registeredListeners st'))
             (filter (has_type "click") (registeredListeners st))) st').
Proof.
  intros W. unfold dispatch. rewrite bind_get.
  rewrite (wf_mirror _ W). cbn [filter matches String.eqb Ascii.eqb Bool.eqb].
  rewrite filter_matches_att. cbn [inner_invoke].
  rewrite bind_get. cbn [still_attached].
  destruct b.
  - erewrite bind_normal.
    2:{ unfold report. rewrite end_spec by exact W. reflexivity. }
    cbn [snd]. apply inner_invoke_spec. now apply wf_after_end.
  - erewrite bind_normal by reflexivity.
    cbn [snd]. now apply inner_invoke_spec.
Qed.

Lemma wf_dispatch_click b st :
  wf st -> wf (snd (dispatch end_ "click" b st)).
Proof.
  intros W. rewrite dispatch_click by exact W. cbn [snd].
  destruct b; wf_tac.
Qed.

(** A click event dispatched by hand: the overlay's listener calls
    [end], then the closures registered for clicks and still attached
    run, and the entries registered for clicks are removed. *)
Lemma invokeEvent_click_spec event st :
  wf st -> heard event = Some "click" ->
  invokeEvent event st = (Normal tt, after_click_event st).
Proof.
  intros W E. unfold invokeEvent.
  rewrite (invokeEvent_on_dispatch end_ event "click" st E).
  erewrite bind_normal by (now apply dispatch_click).
  rewrite bind_get. lazy zeta. apply removal_loop_all. wf_tac.
Qed.

Lemma wf_after_click_event st : wf st -> wf (after_click_event st).
Proof. intros W. unfold after_click_event. wf_tac. Qed.

(** [invokeEvent] on any argument. *)
Lemma invokeEvent_state event st :
  wf st -> snd (invokeEvent event st) = after_invoke event st.
Proof.
  intros W. unfold after_invoke.
  destruct (accepted event) as [ty|] eqn:A.
  - destruct (heard event) as [ty'|] eqn:H.
    + pose proof (heard_accepted _ _ H) as A'. rewrite A in A'.
      injection A' as ->.
      destruct (String.eqb "click" ty') eqn:E.
      * apply String.eqb_eq in E. subst ty'.
        now rewrite invokeEvent_click_spec.
      * now rewrite (invokeEvent_spec event ty').
    + unfold invokeEvent. now rewrite (invokeEvent_on_stopped end_ event ty).
  - unfold invokeEvent. now rewrite invokeEvent_on_rejected.
Qed.

Lemma invokeEvent_returns_iff event st :
  wf st ->
  fst (invokeEvent event st) =
  match accepted event with
  | Some _ => Normal tt
  | None => Throw (match event with
                   | AnEvent _ => InvalidStateError
                   | NotAnEvent => TypeError
                   end)
  end.
Proof.
  intros W. destruct (accepted event) as [ty|] eqn:A.
  - destruct (heard event) as [ty'|] eqn:H.
    + pose proof (heard_accepted _ _ H) as A'. rewrite A in A'.
      injection A' as ->.
      destruct (String.eqb "click" ty') eqn:E.
      * apply String.eqb_eq in E. subst ty'.
        now rewrite invokeEvent_click_spec.
      * now rewrite (invokeEvent_spec event ty').
    + unfold invokeEvent. now rewrite (invokeEvent_on_stopped end_ event ty).
  - unfold invokeEvent. now rewrite invokeEvent_on_rejected.
Qed.

Lemma wf_after_invoke event st : wf st -> wf (after_invoke event st).
Proof.
  intros W. unfold after_invoke.
  destruct (accepted event) as [ty|]; [|exact W].
  destruct (heard event); [|wf_tac].
  destruct (String.eqb "click" ty); [now apply wf_after_click_event|wf_tac].
Qed.

Lemma wf_invokeEvent event st : wf st -> wf (snd (invokeEvent event st)).
Proof. intros W. rewrite invokeEvent_state by exact W. now apply wf_after_invoke. Qed.

Lemma wf_after_button t st : wf st -> wf (after_button t st).
Proof. intros W. destruct t; cbn [after_button]; wf_tac. Qed.

Lemma click_spec t st : wf st -> click t st = (Normal tt, after_click t st).
Proof.
  intros W. unfold click.
  assert (B : forall m, m st = (Normal tt, after_button t st) ->
                        report m st = (Normal tt, after_button t st)).
  { intros m H. unfold report. now rewrite H. }
  erewrite bind_normal.
  2:{ apply B. destruct t; cbn [after_button]; try reflexivity.
      - now apply end_spec.
      - erewrite bind_normal
          by (now apply (invokeEvent_spec (AnEvent onConfirm) "modalConfirm")).
        apply end_spec. wf_tac.
      - erewrite bind_normal
          by (now apply (invokeEvent_spec (AnEvent onDecline) "modalDecline")).
        apply end_spec. wf_tac. }
  replace (match t with OnOverlay => true | _ => false end) with (is_overlay t)
    by now destruct t.
  rewrite dispatch_click by now apply wf_after_button.
  reflexivity.
Qed.

Lemma wf_after_click t st : wf st -> wf (after_click t st).
Proof.
  intros W. unfold after_click. lazy zeta.
  pose proof (wf_after_button t st W).
  destruct (is_overlay t); wf_tac.
Qed.

(** * The label setters *)

Lemma set_modal_same f st : f (modal st) = modal st -> set_modal f st = st.
Proof. intros H. destruct st. unfold set_modal. cbn in *. now rewrite H. Qed.

Lemma assign_innerText_spec cls c v st :
  modal_child cls (modal st) = Some c ->
  assign_innerText c v st =
  (match (if has_innerText c (modal st) then ToString v else Normal "") with
   | Normal _ => Normal tt
   | Throw e => Throw e
   end,
   set_modal (fun m => if has_innerText c m
                       then match ToString v with
                            | Normal s => set_innerText c s m
                            | Throw _ => m
                            end
                       else m) st).
Proof.
  intros H. unfold assign_innerText. rewrite bind_get.
  destruct (has_innerText c (modal st)) eqn:I.
  - destruct (ToString v) as [s|e].
    + unfold modify, set_modal. now rewrite I.
    + unfold throw. rewrite set_modal_same; [reflexivity|now rewrite I].
  - unfold ret. rewrite set_modal_same; [reflexivity|now rewrite I].
Qed.

Lemma label_setter_spec cls default v st :
  looked_up cls ->
  (if truthy v
   then c <- getModalChild cls ;; assign_innerText c v
   else c <- getModalChild cls ;; assign_innerText c (JString default)) st
  = (label_completion cls default v (modal st),
     set_modal (label_assigned cls default v) st).
Proof.
  intros L. destruct (getModalChild_spec cls st L) as (c & H & G).
  unfold label_completion, label_assigned.
  assert (E : forall w,
    (c0 <- getModalChild cls ;; assign_innerText c0 w) st =
    (match modal_child cls (modal st) with
     | Some c0 =>
         if has_innerText c0 (modal st)
         then match ToString w with Normal _ => Normal tt | Throw e => Throw e end
         else Normal tt
     | None => Throw TypeError
     end,
     set_modal (fun m => match modal_child cls m with
                         | Some c0 =>
                             if has_innerText c0 m
                             then match ToString w with
                                  | Normal s => set_innerText c0 s m
                                  | Throw _ => m
                                  end
                             else m
                         | None => m
                         end) st)).
  { intros w. erewrite bind_normal by exact G.
    rewrite (assign_innerText_spec cls c w st H).
    unfold set_modal. rewrite H.
    now destruct (has_innerText c (modal st)). }
  destruct (truthy v); apply E.
Qed.

Lemma set_confirmText_spec v st :
  set_confirmText v st =
  (label_completion "md-confirm" DEFAULT_CONFIRM_TEXT v (modal st),
   set_modal (label_assigned "md-confirm" DEFAULT_CONFIRM_TEXT v) st).
Proof. apply label_setter_spec. unfold looked_up. tauto. Qed.

Lemma set_declineText_spec v st :
  set_declineText v st =
  (label_completion "md-decline" DEFAULT_DECLINE_TEXT v (modal st),
   set_modal (label_assigned "md-decline" DEFAULT_DECLINE_TEXT v) st).
Proof. apply label_setter_spec. unfold looked_up. tauto. Qed.

(** * Every state an instance reaches is well formed *)

Lemma wf_step o st : wf st -> wf (snd (step o st)).
Proof.
  intros W. destruct o; cbn [step].
  - destruct (isActive st) eqn:A.
    + now rewrite start_active.
    + rewrite start_spec by assumption. now apply wf_after_start.
  - rewrite end_spec by assumption. now apply wf_after_end.
  - rewrite registerActions_spec by assumption. cbn [snd]. wf_tac.
  - now apply wf_invokeEvent.
  - rewrite set_confirmText_spec. cbn [snd]. wf_tac.
  - rewrite set_declineText_spec. cbn [snd]. wf_tac.
  - rewrite click_spec by assumption. now apply wf_after_click.
  - cbn. wf_tac.
Qed.

Lemma wf_run ops : forall st, wf st -> wf (run ops st).
Proof.
  induction ops as [|o ops IH]; intros st W; cbn; [exact W|].
  now apply IH, wf_step.
Qed.

Lemma reachable_wf st : reachable st -> wf st.
Proof. intros (g & focused & ops & ->). apply wf_run, wf_new. Qed.

Lemma reachable_new g focused : reachable (new_ModalElement g focused).
Proof. now exists g, focused, []. Qed.

Lemma run_app ops1 ops2 st : run (ops1 ++ ops2) st = run ops2 (run ops1 st).
Proof. revert st; induction ops1 as [|o ops1 IH]; intros st; cbn; auto. Qed.

Lemma reachable_run ops st : reachable st -> reachable (run ops st).
Proof.
  intros (g & focused & ops0 & ->). exists g, focused, (ops0 ++ ops).
  now rewrite run_app.
Qed.

Lemma reachable_step o st : reachable st -> reachable (snd (step o st)).
Proof. intros R. exact (reachable_run [o] st R). Qed.

(** * No operation but [start] throws *)

Lemma removal_loop_total ty n : forall st,
  n <= List.length (registeredListeners st) ->
  fst (removal_loop ty n st) = Normal tt.
Proof.
  induction n as [|i IH]; intros st Hn; [reflexivity|].
  cbn [removal_loop]. rewrite bind_get.
  destruct (nth_error (registeredListeners st) i) as [el|] eqn:E.
  2:{ apply nth_error_None in E. lia. }
  destruct (String.eqb (r_type el) ty).
  - monad. apply IH. cbn.
    unfold splice. rewrite length_app, firstn_length_le, length_skipn by lia. lia.
  - monad. apply IH. lia.
Qed.

Lemma inner_invoke_total overlay b snapshot : forall st,
  fst (inner_invoke overlay b snapshot st) = Normal tt.
Proof.
  induction snapshot as [|l rest IH]; intros st; [reflexivity|].
  cbn [inner_invoke]. rewrite bind_get.
  destruct (still_attached l (listeners (modal st))).
  - unfold bind, report. apply IH.
  - unfold bind, ret. apply IH.
Qed.

Lemma dispatch_total overlay ty b st :
  fst (dispatch overlay ty b st) = Normal tt.
Proof. unfold dispatch. rewrite bind_get. apply inner_invoke_total. Qed.

Lemma invokeEvent_on_total overlay event st :
  accepted event <> None -> fst (invokeEvent_on overlay event st) = Normal tt.
Proof.
  destruct event as [ev|]; unfold accepted; [|congruence].
  destruct (dispatchable ev) eqn:D; [intros _|congruence].
  unfold invokeEvent_on, dispatchEvent. rewrite D. unfold bind at 1.
  destruct (ev_stop_propagation ev).
  - unfold ret. rewrite bind_get. now apply removal_loop_total.
  - pose proof (dispatch_total overlay (ev_type ev) true st) as H.
    destruct (dispatch _ _ _ st) as [[[]|e] st']; cbn in H; try discriminate.
    rewrite bind_get. now apply removal_loop_total.
Qed.

Lemma end_on_shape overlay st :
  exists st', end_on overlay st = (Normal tt, set_isActive false st').
Proof.
  unfold end_on. rewrite bind_modify, bind_get.
  match goal with
  | |- context [bind ?m _ ?s] =>
      assert (F : exists s1, m s = (Normal tt, s1))
  end.
  { destruct (preModalFocusTarget _) as [e|]; [|now eexists].
    rewrite focus_spec. now eexists. }
  destruct F as [s1 F]. erewrite bind_normal by exact F.
  rewrite bind_modify. unfold bind.
  pose proof (invokeEvent_on_total overlay (AnEvent onEnd)
                (set_preModalFocusTarget None s1)) as H.
  specialize (H ltac:(discriminate)).
  destruct (invokeEvent_on _ _ _) as [[[]|e] st']; cbn in H; try discriminate.
  now exists st'.
Qed.


Lemma bind_inv {A B : Type} (m : M A) (k : A -> M B) st b st' :
  bind m k st = (Normal b, st') ->
  exists a st1, m st = (Normal a, st1) /\ k a st1 = (Normal b, st').
Proof.
  unfold bind. destruct (m st) as [[a|e] st1]; intros H; [|discriminate].
  now exists a, st1.
Qed.

Lemma start_success_active t d e c dl s st st' :
  start t d e c dl s st = (Normal tt, st') -> isActive st' = true.
Proof.
  unfold start. rewrite bind_get. destruct (isActive st); [discriminate|].
  intros H.
  repeat first
    [ rewrite bind_modify in H
    | rewrite bind_get in H
    | apply bind_inv in H; destruct H as (? & ? & _ & H) ].
  injection H as <-. reflexivity.
Qed.

Lemma ToString_plain v :
  truthy v = true -> plain_value v = true ->
  exists s, ToString v = Normal s /\ s <> "".
Proof.
  destruct v as [| |[|]|z c r|s| |o|]; cbn; try discriminate; intros T _.
  - now eexists.
  - now eexists.
  - exists s. split; [reflexivity|]. intros ->. discriminate.
Qed.

Lemma label_assigned_confirm v st :
  modal_child "md-confirm" (modal st) = Some (Built Confirm) ->
  confirm_innerText (label_assigned "md-confirm" DEFAULT_CONFIRM_TEXT v (modal st)) =
  match ToString (if truthy v then v else JString DEFAULT_CONFIRM_TEXT) with
  | Normal s => s
  | Throw _ => confirm_innerText (modal st)
  end.
Proof.
  intros H. unfold label_assigned. rewrite H. cbn [has_innerText].
  now destruct (ToString _).
Qed.

Lemma label_assigned_decline v st :
  modal_child "md-decline" (modal st) = Some (Built Decline) ->
  decline_innerText (label_assigned "md-decline" DEFAULT_DECLINE_TEXT v (modal st)) =
  match ToString (if truthy v then v else JString DEFAULT_DECLINE_TEXT) with
  | Normal s => s
  | Throw _ => decline_innerText (modal st)
  end.
Proof.
  intros H. unfold label_assigned. rewrite H. cbn [has_innerText].
  now destruct (ToString _).
Qed.


(** * The active-state guard, the flag, the labels (C1, C3, C7, C10, C8, C5) *)

(** C1.  In a state where [isActive] is true, [start], whatever its
    arguments, throws the error "Can't start new modal before previous
    ends." and the whole state of the instance (markup of title and
    description, registered callbacks, display of the buttons, recorded
    focus target, [isActive]) is what it was before the call. *)
Theorem start_while_active_throws t d e c dl s st :
  isActive st = true ->
  start t d e c dl s st = (Throw already_active, st).
Proof. apply start_active. Qed.

Lemma start_while_active_throws_witness :
  let st := snd (start (text "T") (text "D") ArgUndefined ArgUndefined ArgUndefined ArgUndefined
                   (new_ModalElement true None)) in
  isActive st = true /\
  start (text "T2") (text "D2") (ArgArray [{| cb_name := 1; cb_throws := false |}])
        ArgUndefined ArgNull ArgUndefined st
  = (Throw already_active, st).
Proof.
  intros st.
  assert (H : isActive st = true) by (vm_compute; reflexivity).
  split; [exact H|].
  apply start_while_active_throws. exact H.
Defined.

(** C3.  When a call of [start] returns, the [isActive] getter gives
    true; [end] always returns, and the getter then gives false. *)
Theorem isActive_after_start_and_end :
  (forall t d e c dl s st st',
     start t d e c dl s st = (Normal tt, st') -> isActive st' = true) /\
  (forall st, exists st', end_ st = (Normal tt, st') /\ isActive st' = false).
Proof.
  split.
  - apply start_success_active.
  - intros st. destruct (end_on_shape (ret tt) st) as [st' H].
    exists (set_isActive false st'). split; [exact H|reflexivity].
Qed.

Lemma isActive_after_start_and_end_witness :
  let st0 := new_ModalElement true (Some (PageElement 0)) in
  let f := {| cb_name := 1; cb_throws := false |} in
  start (text "T") (text "D") (ArgArray [f]) (ArgArray [f]) ArgUndefined ArgUndefined st0
    = (Normal tt, snd (start (text "T") (text "D") (ArgArray [f]) (ArgArray [f]) ArgUndefined
                         ArgUndefined st0)) /\
  isActive (snd (start (text "T") (text "D") (ArgArray [f]) (ArgArray [f]) ArgUndefined
                   ArgUndefined st0)) = true.
Proof.
  intros st0 f.
  assert (H : start (text "T") (text "D") (ArgArray [f]) (ArgArray [f]) ArgUndefined ArgUndefined st0
              = (Normal tt, snd (start (text "T") (text "D") (ArgArray [f]) (ArgArray [f])
                                   ArgUndefined ArgUndefined st0)))
    by (vm_compute; reflexivity).
  split; [exact H|].
  exact (proj1 isActive_after_start_and_end _ _ _ _ _ _ _ _ H).
Defined.

(** C7, as stated, fails for the empty string: assigning it to
    [confirmText] gives the label "Ok", not the empty label.  It also
    fails for a string like "Yes" when the markup of the title has an
    element of the class "md-confirm" (here [<i class="md-confirm"></i>]):
    the setter looks the button up by its class and finds that element
    first, so the text goes there and the button keeps its label. *)
Lemma confirmText_empty_string_resets :
  let title := [Element true ["md-confirm"] None []] in
  let st := snd (start title (text "D") ArgUndefined (ArgArray []) ArgUndefined
                   ArgUndefined (new_ModalElement true None)) in
  let st1 := snd (set_confirmText (JString "Yes") st) in
  confirm_innerText
    (modal (snd (set_confirmText (JString "") (new_ModalElement true None)))) = "Ok"
  /\ confirm_innerText
       (modal (snd (set_confirmText (JString "") (new_ModalElement true None)))) <> ""
  /\ confirm_innerText (modal st1) = "Ok"
  /\ title_children (modal st1) =
       [Element true ["md-confirm"] (Some "block") [Text "Yes"]].
Proof. vm_compute. split; [reflexivity|]. split; [discriminate|]. split; reflexivity. Qed.

(** C7, amended.  On a dialog where no element of the markup has the
    class of a button, assigning a non-empty string [s] to [confirmText]
    (to [declineText]) makes [s] the label of the confirm (decline)
    button, and assigning undefined or null makes the label "Ok"
    ("Decline"). *)
Theorem label_setters s v st :
  s <> "" -> nullish v = true -> own_buttons st ->
  confirm_innerText (modal (snd (set_confirmText (JString s) st))) = s /\
  decline_innerText (modal (snd (set_declineText (JString s) st))) = s /\
  confirm_innerText (modal (snd (set_confirmText v st))) = "Ok" /\
  decline_innerText (modal (snd (set_declineText v st))) = "Decline".
Proof.
  intros Hs Hv [Hc Hd].
  assert (T : truthy (JString s) = true).
  { cbn. destruct (String.eqb_spec s ""); [contradiction|reflexivity]. }
  assert (F : truthy v = false) by (destruct v; try discriminate; reflexivity).
  rewrite !set_confirmText_spec, !set_declineText_spec. cbn [snd modal set_modal].
  rewrite !label_assigned_confirm, !label_assigned_decline by assumption.
  rewrite T, F. cbn [ToString]. auto.
Qed.

Lemma label_setters_witness :
  let st := snd (start (text "T") (text "D") ArgUndefined (ArgArray []) ArgUndefined
                   ArgUndefined
                   (snd (set_confirmText (JString "No") (new_ModalElement true None)))) in
  confirm_innerText (modal st) = "No" /\
  confirm_innerText (modal (snd (set_confirmText (JString "Yes") st))) = "Yes" /\
  confirm_innerText (modal (snd (set_confirmText JNull st))) = "Ok".
Proof.
  intros st. split; [vm_compute; reflexivity|].
  assert (O : own_buttons st) by (split; vm_compute; reflexivity).
  pose proof (label_setters "Yes" JNull st ltac:(discriminate) eq_refl O) as P.
  exact (conj (proj1 P) (proj1 (proj2 (proj2 P)))).
Defined.

(** C10, as stated, fails in its last part: an object is truthy, and an
    empty array converts to the empty string, which becomes the label.
    Its first part fails when the markup of the title has an element of
    the class "md-confirm": the default label goes to that element, and
    the button keeps the label it had, here "Yes". *)
Lemma empty_array_sets_the_empty_label :
  let empty_array := JObject (Normal "") in
  let title := [Element true ["md-confirm"] None []] in
  let st := snd (start title (text "D") ArgUndefined (ArgArray []) ArgUndefined
                   ArgUndefined
                   (snd (set_confirmText (JString "Yes")
                           (new_ModalElement true None)))) in
  truthy empty_array = true /\
  set_confirmText empty_array (new_ModalElement true None) =
    (Normal tt,
     set_modal (set_confirm_innerText "") (new_ModalElement true None)) /\
  confirm_innerText
    (modal (snd (set_confirmText empty_array (new_ModalElement true None)))) = "" /\
  confirm_innerText (modal (snd (set_confirmText (JString "") st))) = "Yes".
Proof. vm_compute. repeat split. Qed.

(** C10, amended.  On a dialog where no element of the markup has the
    class of a button, assigning a falsy value (the empty string, false,
    0, NaN, as well as undefined and null) to [confirmText] or
    [declineText] has the effect of assigning null: the label becomes
    the default.  No value other than an object or a symbol makes either
    label the empty string: the assignment returns and the label is not
    empty. *)
Theorem falsy_label_resets v st :
  truthy v = false -> own_buttons st ->
  set_confirmText v st = set_confirmText JNull st /\
  set_declineText v st = set_declineText JNull st /\
  confirm_innerText (modal (snd (set_confirmText v st))) = "Ok" /\
  decline_innerText (modal (snd (set_declineText v st))) = "Decline" /\
  (forall w, plain_value w = true ->
     fst (set_confirmText w st) = Normal tt /\
     fst (set_declineText w st) = Normal tt /\
     confirm_innerText (modal (snd (set_confirmText w st))) <> "" /\
     decline_innerText (modal (snd (set_declineText w st))) <> "").
Proof.
  intros F [Hc Hd].
  split; [unfold set_confirmText; now rewrite F|].
  split; [unfold set_declineText; now rewrite F|].
  rewrite !set_confirmText_spec, !set_declineText_spec. cbn [snd modal set_modal].
  rewrite !label_assigned_confirm, !label_assigned_decline by assumption.
  rewrite F. cbn [ToString].
  split; [reflexivity|]. split; [reflexivity|].
  intros w P.
  rewrite !set_confirmText_spec, !set_declineText_spec. cbn [fst snd modal set_modal].
  rewrite !label_assigned_confirm, !label_assigned_decline by assumption.
  unfold label_completion. rewrite Hc, Hd. cbn [has_innerText].
  destruct (truthy w) eqn:T.
  - destruct (ToString_plain w T P) as (s & -> & N). auto.
  - cbn [ToString]. repeat split; discriminate.
Qed.

Lemma falsy_label_resets_witness :
  let st := snd (set_declineText (JString "No")
                   (snd (set_confirmText (JString "Yes") (new_ModalElement true None)))) in
  confirm_innerText (modal st) = "Yes" /\
  decline_innerText (modal st) = "No" /\
  confirm_innerText (modal (snd (set_confirmText (JString "") st))) = "Ok" /\
  decline_innerText (modal (snd (set_declineText (JNumber true "0" "") st))) = "Decline".
Proof.
  intros st. split; [vm_compute; reflexivity|]. split; [vm_compute; reflexivity|].
  assert (O : own_buttons st) by (split; vm_compute; reflexivity).
  split.
  - exact (proj1 (proj2 (proj2 (falsy_label_resets (JString "") st eq_refl O)))).
  - exact (proj1 (proj2 (proj2 (proj2
      (falsy_label_resets (JNumber true "0" "") st eq_refl O))))).
Defined.




(** C5: the code at [start("T", "D", undefined, null)].  The confirm
    button is displayed, no callback is registered for [modalConfirm],
    and a click on the button calls nothing. *)
Theorem start_null_group_shows_button :
  let st := snd (start (text "T") (text "D") ArgUndefined ArgNull ArgUndefined ArgUndefined
                   (new_ModalElement true None)) in
  confirm_display (modal st) = Some "block" /\
  filter (has_type "modalConfirm") (registeredListeners st) = [] /\
  calls_during (click OnConfirm) st = [].
Proof. vm_compute. repeat split. Qed.

(** * Projections of updated states

    Stated as equations, so that a layer of updates is removed by rewriting. *)

Lemma modal_set_preModalFocusTarget t st : modal (set_preModalFocusTarget t st) = modal st.
Proof. reflexivity. Qed.

Lemma preModalFocusTarget_set_preModalFocusTarget t st : preModalFocusTarget (set_preModalFocusTarget t st) = t.
Proof. reflexivity. Qed.

Lemma registeredListeners_set_preModalFocusTarget t st : registeredListeners (set_preModalFocusTarget t st) = registeredListeners st.
Proof. reflexivity. Qed.

Lemma isActive_set_preModalFocusTarget t st : isActive (set_preModalFocusTarget t st) = isActive st.
Proof. reflexivity. Qed.

Lemma activeElement_set_preModalFocusTarget t st : activeElement (set_preModalFocusTarget t st) = activeElement st.
Proof. reflexivity. Qed.

Lemma nextClosure_set_preModalFocusTarget t st : nextClosure (set_preModalFocusTarget t st) = nextClosure st.
Proof. reflexivity. Qed.

Lemma calls_set_preModalFocusTarget t st : calls (set_preModalFocusTarget t st) = calls st.
Proof. reflexivity. Qed.

Lemma modal_set_registeredListeners r st : modal (set_registeredListeners r st) = modal st.
Proof. reflexivity. Qed.

Lemma preModalFocusTarget_set_registeredListeners r st : preModalFocusTarget (set_registeredListeners r st) = preModalFocusTarget st.
Proof. reflexivity. Qed.

Lemma registeredListeners_set_registeredListeners r st : registeredListeners (set_registeredListeners r st) = r.
Proof. reflexivity. Qed.

Lemma isActive_set_registeredListeners r st : isActive (set_registeredListeners r st) = isActive st.
Proof. reflexivity. Qed.

Lemma activeElement_set_registeredListeners r st : activeElement (set_registeredListeners r st) = activeElement st.
Proof. reflexivity. Qed.

Lemma nextClosure_set_registeredListeners r st : nextClosure (set_registeredListeners r st) = nextClosure st.
Proof. reflexivity. Qed.

Lemma calls_set_registeredListeners r st : calls (set_registeredListeners r st) = calls st.
Proof. reflexivity. Qed.

Lemma modal_set_isActive b st : modal (set_isActive b st) = modal st.
Proof. reflexivity. Qed.

Lemma preModalFocusTarget_set_isActive b st : preModalFocusTarget (set_isActive b st) = preModalFocusTarget st.
Proof. reflexivity. Qed.

Lemma registeredListeners_set_isActive b st : registeredListeners (set_isActive b st) = registeredListeners st.
Proof. reflexivity. Qed.

Lemma isActive_set_isActive b st : isActive (set_isActive b st) = b.
Proof. reflexivity. Qed.

Lemma activeElement_set_isActive b st : activeElement (set_isActive b st) = activeElement st.
Proof. reflexivity. Qed.

Lemma nextClosure_set_isActive b st : nextClosure (set_isActive b st) = nextClosure st.
Proof. reflexivity. Qed.

Lemma calls_set_isActive b st : calls (set_isActive b st) = calls st.
Proof. reflexivity. Qed.

Lemma modal_set_activeElement e st : modal (set_activeElement e st) = modal st.
Proof. reflexivity. Qed.

Lemma preModalFocusTarget_set_activeElement e st : preModalFocusTarget (set_activeElement e st) = preModalFocusTarget st.
Proof. reflexivity. Qed.

Lemma registeredListeners_set_activeElement e st : registeredListeners (set_activeElement e st) = registeredListeners st.
Proof. reflexivity. Qed.

Lemma isActive_set_activeElement e st : isActive (set_activeElement e st) = isActive st.
Proof. reflexivity. Qed.

Lemma activeElement_set_activeElement e st : activeElement (set_activeElement e st) = e.
Proof. reflexivity. Qed.

Lemma nextClosure_set_activeElement e st : nextClosure (set_activeElement e st) = nextClosure st.
Proof. reflexivity. Qed.

Lemma calls_set_activeElement e st : calls (set_activeElement e st) = calls st.
Proof. reflexivity. Qed.

Lemma modal_set_nextClosure n st : modal (set_nextClosure n st) = modal st.
Proof. reflexivity. Qed.

Lemma preModalFocusTarget_set_nextClosure n st : preModalFocusTarget (set_nextClosure n st) = preModalFocusTarget st.
Proof. reflexivity. Qed.

Lemma registeredListeners_set_nextClosure n st : registeredListeners (set_nextClosure n st) = registeredListeners st.
Proof. reflexivity. Qed.

Lemma isActive_set_nextClosure n st : isActive (set_nextClosure n st) = isActive st.
Proof. reflexivity. Qed.

Lemma activeElement_set_nextClosure n st : activeElement (set_nextClosure n st) = activeElement st.
Proof. reflexivity. Qed.

Lemma nextClosure_set_nextClosure n st : nextClosure (set_nextClosure n st) = n.
Proof. reflexivity. Qed.

Lemma calls_set_nextClosure n st : calls (set_nextClosure n st) = calls st.
Proof. reflexivity. Qed.

Lemma modal_set_calls c st : modal (set_calls c st) = modal st.
Proof. reflexivity. Qed.

Lemma preModalFocusTarget_set_calls c st : preModalFocusTarget (set_calls c st) = preModalFocusTarget st.
Proof. reflexivity. Qed.

Lemma registeredListeners_set_calls c st : registeredListeners (set_calls c st) = registeredListeners st.
Proof. reflexivity. Qed.

Lemma isActive_set_calls c st : isActive (set_calls c st) = isActive st.
Proof. reflexivity. Qed.

Lemma activeElement_set_calls c st : activeElement (set_calls c st) = activeElement st.
Proof. reflexivity. Qed.

Lemma nextClosure_set_calls c st : nextClosure (set_calls c st) = nextClosure st.
Proof. reflexivity. Qed.

Lemma calls_set_calls c st : calls (set_calls c st) = c.
Proof. reflexivity. Qed.

Lemma modal_set_modal f st : modal (set_modal f st) = f (modal st).
Proof. reflexivity. Qed.

Lemma preModalFocusTarget_set_modal f st : preModalFocusTarget (set_modal f st) = preModalFocusTarget st.
Proof. reflexivity. Qed.

Lemma registeredListeners_set_modal f st : registeredListeners (set_modal f st) = registeredListeners st.
Proof. reflexivity. Qed.

Lemma isActive_set_modal f st : isActive (set_modal f st) = isActive st.
Proof. reflexivity. Qed.

Lemma activeElement_set_modal f st : activeElement (set_modal f st) = activeElement st.
Proof. reflexivity. Qed.

Lemma nextClosure_set_modal f st : nextClosure (set_modal f st) = nextClosure st.
Proof. reflexivity. Qed.

Lemma calls_set_modal f st : calls (set_modal f st) = calls st.
Proof. reflexivity. Qed.

Lemma modal_logged t st : modal (logged t st) = modal st.
Proof. reflexivity. Qed.

Lemma preModalFocusTarget_logged t st : preModalFocusTarget (logged t st) = preModalFocusTarget st.
Proof. reflexivity. Qed.

Lemma registeredListeners_logged t st : registeredListeners (logged t st) = registeredListeners st.
Proof. reflexivity. Qed.

Lemma isActive_logged t st : isActive (logged t st) = isActive st.
Proof. reflexivity. Qed.

Lemma activeElement_logged t st : activeElement (logged t st) = activeElement st.
Proof. reflexivity. Qed.

Lemma nextClosure_logged t st : nextClosure (logged t st) = nextClosure st.
Proof. reflexivity. Qed.

Lemma calls_logged t st : calls (logged t st) = calls st ++ t.
Proof. reflexivity. Qed.

Lemma preModalFocusTarget_with_callbacks regs st : preModalFocusTarget (with_callbacks regs st) = preModalFocusTarget st.
Proof. reflexivity. Qed.

Lemma registeredListeners_with_callbacks regs st : registeredListeners (with_callbacks regs st) = regs.
Proof. reflexivity. Qed.

Lemma isActive_with_callbacks regs st : isActive (with_callbacks regs st) = isActive st.
Proof. reflexivity. Qed.

Lemma activeElement_with_callbacks regs st : activeElement (with_callbacks regs st) = activeElement st.
Proof. reflexivity. Qed.

Lemma nextClosure_with_callbacks regs st : nextClosure (with_callbacks regs st) = nextClosure st.
Proof. reflexivity. Qed.

Lemma calls_with_callbacks regs st : calls (with_callbacks regs st) = calls st.
Proof. reflexivity. Qed.

Lemma listeners_with_callbacks regs st :
  listeners (modal (with_callbacks regs st)) = OverlayClick :: map att regs.
Proof. reflexivity. Qed.

Create Rewrite HintDb proj.
#[global] Hint Rewrite modal_set_preModalFocusTarget preModalFocusTarget_set_preModalFocusTarget registeredListeners_set_preModalFocusTarget isActive_set_preModalFocusTarget : proj.
#[global] Hint Rewrite activeElement_set_preModalFocusTarget nextClosure_set_preModalFocusTarget calls_set_preModalFocusTarget modal_set_registeredListeners : proj.
#[global] Hint Rewrite preModalFocusTarget_set_registeredListeners registeredListeners_set_registeredListeners isActive_set_registeredListeners activeElement_set_registeredListeners : proj.
#[global] Hint Rewrite nextClosure_set_registeredListeners calls_set_registeredListeners modal_set_isActive preModalFocusTarget_set_isActive : proj.
#[global] Hint Rewrite registeredListeners_set_isActive isActive_set_isActive activeElement_set_isActive nextClosure_set_isActive : proj.
#[global] Hint Rewrite calls_set_isActive modal_set_activeElement preModalFocusTarget_set_activeElement registeredListeners_set_activeElement : proj.
#[global] Hint Rewrite isActive_set_activeElement activeElement_set_activeElement nextClosure_set_activeElement calls_set_activeElement : proj.
#[global] Hint Rewrite modal_set_nextClosure preModalFocusTarget_set_nextClosure registeredListeners_set_nextClosure isActive_set_nextClosure : proj.
#[global] Hint Rewrite activeElement_set_nextClosure nextClosure_set_nextClosure calls_set_nextClosure modal_set_calls : proj.
#[global] Hint Rewrite preModalFocusTarget_set_calls registeredListeners_set_calls isActive_set_calls activeElement_set_calls : proj.
#[global] Hint Rewrite nextClosure_set_calls calls_set_calls modal_set_modal preModalFocusTarget_set_modal : proj.
#[global] Hint Rewrite registeredListeners_set_modal isActive_set_modal activeElement_set_modal nextClosure_set_modal : proj.
#[global] Hint Rewrite calls_set_modal modal_logged preModalFocusTarget_logged registeredListeners_logged : proj.
#[global] Hint Rewrite isActive_logged activeElement_logged nextClosure_logged calls_logged : proj.
#[global] Hint Rewrite preModalFocusTarget_with_callbacks registeredListeners_with_callbacks isActive_with_callbacks activeElement_with_callbacks : proj.
#[global] Hint Rewrite nextClosure_with_callbacks calls_with_callbacks listeners_with_callbacks : proj.

(** * What the pure descriptions leave unchanged *)

Lemma closures_effect_calls rs st :
  calls (closures_effect rs st) = calls st ++ dispatch_calls (isActive st) rs.
Proof. unfold closures_effect. now destruct (existsb cleans rs). Qed.

Lemma closures_effect_registered rs st :
  registeredListeners (closures_effect rs st) =
  if existsb cleans rs then [] else registeredListeners st.
Proof. unfold closures_effect. now destruct (existsb cleans rs). Qed.

Lemma closures_effect_isActive rs st :
  isActive (closures_effect rs st) = isActive st.
Proof. unfold closures_effect. now destruct (existsb cleans rs). Qed.

Lemma closures_effect_target rs st :
  preModalFocusTarget (closures_effect rs st) = preModalFocusTarget st.
Proof. unfold closures_effect. now destruct (existsb cleans rs). Qed.

Lemma closures_effect_activeElement rs st :
  activeElement (closures_effect rs st) = activeElement st.
Proof. unfold closures_effect. now destruct (existsb cleans rs). Qed.

Lemma closures_effect_nextClosure rs st :
  nextClosure (closures_effect rs st) = nextClosure st.
Proof. unfold closures_effect. now destruct (existsb cleans rs). Qed.

Lemma after_invokeEvent_calls ty st :
  calls (after_invokeEvent ty st) =
  calls st ++ dispatch_calls (isActive st)
                (filter (has_type ty) (registeredListeners st)).
Proof. unfold after_invokeEvent, after_dispatch. cbn. apply closures_effect_calls. Qed.

Lemma after_invokeEvent_registered ty st :
  registeredListeners (after_invokeEvent ty st) =
  filter (fun r => negb (has_type ty r))
    (if existsb cleans (filter (has_type ty) (registeredListeners st))
     then [] else registeredListeners st).
Proof.
  unfold after_invokeEvent, after_dispatch, detach. cbn.
  now rewrite closures_effect_registered.
Qed.

Lemma after_invokeEvent_isActive ty st :
  isActive (after_invokeEvent ty st) = isActive st.
Proof. unfold after_invokeEvent, after_dispatch. cbn. apply closures_effect_isActive. Qed.

Lemma after_invokeEvent_target ty st :
  preModalFocusTarget (after_invokeEvent ty st) = preModalFocusTarget st.
Proof. unfold after_invokeEvent, after_dispatch. cbn. apply closures_effect_target. Qed.

Lemma after_invokeEvent_activeElement ty st :
  activeElement (after_invokeEvent ty st) = activeElement st.
Proof.
  unfold after_invokeEvent, after_dispatch. cbn. apply closures_effect_activeElement.
Qed.

Lemma after_invokeEvent_nextClosure ty st :
  nextClosure (after_invokeEvent ty st) = nextClosure st.
Proof.
  unfold after_invokeEvent, after_dispatch. cbn. apply closures_effect_nextClosure.
Qed.

Lemma after_registerActions_registered ty a st :
  registeredListeners (after_registerActions ty a st) =
  registeredListeners st ++ new_entries ty a (nextClosure st).
Proof. destruct a; cbn; try reflexivity; now rewrite app_nil_r. Qed.

Lemma after_registerActions_nextClosure ty a st :
  nextClosure (after_registerActions ty a st) =
  nextClosure st + List.length (new_entries ty a (nextClosure st)).
Proof. destruct a; cbn; lia. Qed.

Lemma after_registerActions_isActive ty a st :
  isActive (after_registerActions ty a st) = isActive st.
Proof. now destruct a. Qed.

Lemma after_registerActions_calls ty a st :
  calls (after_registerActions ty a st) = calls st.
Proof. now destruct a. Qed.

Lemma after_registerActions_target ty a st :
  preModalFocusTarget (after_registerActions ty a st) = preModalFocusTarget st.
Proof. now destruct a. Qed.

Lemma after_registerActions_activeElement ty a st :
  activeElement (after_registerActions ty a st) = activeElement st.
Proof. now destruct a. Qed.

Lemma refocused_frame st :
  modal (refocused st) = modal st /\
  registeredListeners (refocused st) = registeredListeners st /\
  nextClosure (refocused st) = nextClosure st /\
  isActive (refocused st) = isActive st /\
  preModalFocusTarget (refocused st) = preModalFocusTarget st /\
  calls (refocused st) = calls st.
Proof.
  unfold refocused. destruct (preModalFocusTarget st) as [e|] eqn:E.
  - pose proof (focus_frame e st) as F. rewrite E in F. exact F.
  - rewrite E. tauto.
Qed.

Lemma after_end_calls st :
  calls (after_end st) =
  calls st ++ dispatch_calls (isActive st)
                (filter (has_type "modalEnd") (registeredListeners st)).
Proof.
  unfold after_end. cbn [calls set_isActive]. rewrite after_invokeEvent_calls.
  cbn [calls isActive registeredListeners set_preModalFocusTarget].
  destruct (refocused_frame (set_modal (set_modal_display None) st))
    as (_ & -> & _ & -> & _ & ->).
  reflexivity.
Qed.

Lemma after_end_registered st :
  registeredListeners (after_end st) =
  filter (fun r => negb (has_type "modalEnd" r))
    (if existsb cleans (filter (has_type "modalEnd") (registeredListeners st))
     then [] else registeredListeners st).
Proof.
  unfold after_end. cbn [registeredListeners set_isActive].
  rewrite after_invokeEvent_registered.
  cbn [registeredListeners set_preModalFocusTarget].
  destruct (refocused_frame (set_modal (set_modal_display None) st))
    as (_ & -> & _).
  reflexivity.
Qed.

Lemma after_end_isActive st : isActive (after_end st) = false.
Proof. reflexivity. Qed.

Lemma after_end_target st : preModalFocusTarget (after_end st) = None.
Proof.
  unfold after_end. cbn [preModalFocusTarget set_isActive].
  now rewrite after_invokeEvent_target.
Qed.

Lemma after_end_nextClosure st : nextClosure (after_end st) = nextClosure st.
Proof.
  unfold after_end. cbn [nextClosure set_isActive].
  rewrite after_invokeEvent_nextClosure. cbn [nextClosure set_preModalFocusTarget].
  now destruct (refocused_frame (set_modal (set_modal_display None) st))
    as (_ & _ & -> & _).
Qed.

(** * The flag seen by the callbacks *)

Lemma group_calls_flag a l : Forall (fun c => snd c = a) (group_calls a l).
Proof.
  induction l as [|[f|] l IH]; cbn; auto.
  constructor; [reflexivity|]. now destruct (cb_throws f).
Qed.

Lemma dispatch_calls_flag a rs : Forall (fun c => snd c = a) (dispatch_calls a rs).
Proof.
  induction rs as [|r rs IH]; cbn; [constructor|].
  apply Forall_app; split; [apply group_calls_flag|].
  now destruct (cleans r).
Qed.

Lemma skipn_own_length {A : Type} (l t : list A) :
  skipn (List.length l) (l ++ t) = t.
Proof. induction l; cbn; auto. Qed.

Lemma calls_during_added m st t :
  calls (snd (m st)) = calls st ++ t -> calls_during m st = t.
Proof. intros H. unfold calls_during. rewrite H. apply skipn_own_length. Qed.

Lemma registering_frame t d e c dl s st :
  registeredListeners (registering t d e c dl s st) =
    registeredListeners st ++ start_entries (nextClosure st) e c dl s /\
  isActive (registering t d e c dl s st) = isActive st /\
  calls (registering t d e c dl s st) = calls st /\
  activeElement (registering t d e c dl s st) = activeElement st /\
  preModalFocusTarget (registering t d e c dl s st) = preModalFocusTarget st.
Proof.
  unfold registering.
  rewrite !after_registerActions_registered, !after_registerActions_nextClosure,
    !after_registerActions_isActive, !after_registerActions_calls,
    !after_registerActions_activeElement, !after_registerActions_target.
  cbn [registeredListeners nextClosure isActive calls activeElement
       preModalFocusTarget set_modal].
  unfold start_entries. lazy zeta. rewrite <- !app_assoc. auto.
Qed.

Lemma after_invokeEvent_displays ty st :
  confirm_display (modal (after_invokeEvent ty st)) = confirm_display (modal st) /\
  decline_display (modal (after_invokeEvent ty st)) = decline_display (modal st) /\
  modal_display (modal (after_invokeEvent ty st)) = modal_display (modal st).
Proof.
  unfold after_invokeEvent, after_dispatch, closures_effect.
  destruct (existsb cleans _); repeat split.
Qed.

Lemma opened_frame c dl st :
  calls (opened c dl st) =
    calls st ++ dispatch_calls (isActive st)
                  (filter (has_type "modalStart") (registeredListeners st)) /\
  registeredListeners (opened c dl st) =
    filter (fun r => negb (has_type "modalStart" r))
      (if existsb cleans (filter (has_type "modalStart") (registeredListeners st))
       then [] else registeredListeners st) /\
  isActive (opened c dl st) = true /\
  preModalFocusTarget (opened c dl st) = activeElement st.
Proof.
  unfold opened. lazy zeta. autorewrite with proj.
  rewrite after_invokeEvent_calls, after_invokeEvent_registered,
    after_invokeEvent_target.
  autorewrite with proj. repeat split.
Qed.

Lemma after_start_calls t d e c dl s st :
  isActive st = false ->
  calls (after_start t d e c dl s st) =
  calls st ++
  dispatch_calls false
    (filter (has_type "modalStart")
       (registeredListeners st ++ start_entries (nextClosure st) e c dl s)).
Proof.
  intros I. unfold after_start.
  destruct (registering_frame t d e c dl s st) as (R & A & C & _).
  destruct (opened_frame c dl (registering t d e c dl s st)) as (-> & _).
  now rewrite R, A, C, I.
Qed.

(** * The entries of [start] *)

Lemma group_calls_user a l : group_calls a (map UserFn l) = seen a (until_throw l).
Proof.
  induction l as [|f l IH]; cbn; [reflexivity|].
  destruct (cb_throws f); cbn; [reflexivity|now rewrite IH].
Qed.

Lemma group_cleans_user l : forallb is_user l = true -> group_cleans l = false.
Proof.
  induction l as [|[f|] l IH]; cbn; try discriminate; [reflexivity|].
  intros H. destruct (cb_throws f); auto.
Qed.

Lemma until_throw_all l :
  forallb (fun f => negb (cb_throws f)) l = true -> until_throw l = l.
Proof.
  induction l as [|f l IH]; cbn; [reflexivity|].
  destruct (cb_throws f); cbn; [discriminate|].
  intros H. now rewrite IH.
Qed.

Lemma dispatch_calls_app a rs1 rs2 :
  dispatch_calls a (rs1 ++ rs2) =
  dispatch_calls a rs1 ++ (if existsb cleans rs1 then [] else dispatch_calls a rs2).
Proof.
  induction rs1 as [|r rs1 IH]; [reflexivity|].
  cbn [dispatch_calls existsb app]. destruct (cleans r); cbn [orb].
  - now rewrite !app_nil_r.
  - now rewrite IH, app_assoc.
Qed.

Lemma filter_new_entries ty ty' a n :
  filter (has_type ty) (new_entries ty' a n) =
  if String.eqb ty' ty then new_entries ty' a n else [].
Proof.
  destruct a as [| |l]; cbn; unfold has_type; cbn;
    destruct (String.eqb ty' ty); reflexivity.
Qed.

Lemma filter_not_new_entries ty ty' a n :
  filter (fun r => negb (has_type ty r)) (new_entries ty' a n) =
  if String.eqb ty' ty then [] else new_entries ty' a n.
Proof.
  destruct a as [| |l]; cbn; unfold has_type; cbn;
    destruct (String.eqb ty' ty); reflexivity.
Qed.

Lemma dispatch_calls_pass a ty g n :
  dispatch_calls a (new_entries ty (pass g) n) = seen a (until_throw (group g)).
Proof.
  destruct g as [| |l]; cbn; try reflexivity.
  rewrite group_calls_user. unfold cleans. cbn.
  rewrite group_cleans_user, app_nil_r; [reflexivity|].
  apply forallb_forall. intros x Hx. apply in_map_iff in Hx as [f [<- _]].
  reflexivity.
Qed.

Lemma cleans_pass ty g n : existsb cleans (new_entries ty (pass g) n) = false.
Proof.
  destruct g as [| |l]; cbn; try reflexivity.
  unfold cleans. cbn. rewrite group_cleans_user; [reflexivity|].
  apply forallb_forall. intros x Hx. apply in_map_iff in Hx as [f [<- _]].
  reflexivity.
Qed.

Lemma tidy_cleans r : tidy r -> cleans r = true -> r_type r = "modalEnd".
Proof.
  intros [H|H] C; [exact H|].
  unfold cleans in C. rewrite group_cleans_user in C by exact H. discriminate.
Qed.

(** Only a dispatch of [modalEnd] runs the cleanup function. *)
Lemma no_cleanup_elsewhere ty (keep : registered -> bool) st :
  wf st -> String.eqb ty "modalEnd" = false ->
  existsb cleans
    (filter keep (filter (has_type ty) (registeredListeners st))) = false.
Proof.
  intros W Hty. apply not_true_is_false. intros E.
  apply existsb_exists in E as [r [Hr C]].
  apply filter_In in Hr as [Hr _]. apply filter_In in Hr as [Hr T].
  pose proof (wf_tidy _ W) as Ti. rewrite Forall_forall in Ti.
  pose proof (tidy_cleans r (Ti r Hr) C) as E.
  unfold has_type in T. apply String.eqb_eq in T. rewrite E in T. subst ty.
  discriminate.
Qed.

Lemma no_cleanup_elsewhere' ty st :
  wf st -> String.eqb ty "modalEnd" = false ->
  existsb cleans (filter (has_type ty) (registeredListeners st)) = false.
Proof.
  intros W Hty.
  rewrite <- (no_cleanup_elsewhere ty (fun _ => true) st W Hty).
  f_equal. symmetry. apply filter_all. reflexivity.
Qed.

Lemma has_cleanup_cleans st :
  has_cleanup st ->
  existsb cleans (filter (has_type "modalEnd") (registeredListeners st)) = true.
Proof.
  intros (r & Hin & Hty & C). apply existsb_exists. exists r. split; [|exact C].
  apply filter_In. split; [exact Hin|]. unfold has_type. now apply String.eqb_eq.
Qed.

(** * What the callbacks see (C9) *)

(** C9, as stated, fails for [end] on a dialog that is not active: an end
    callback registered with [registerActions] on a new instance is
    called by [end()] while the getter gives false. *)
Lemma end_callback_sees_false_on_inactive_dialog :
  let f := {| cb_name := 1; cb_throws := false |} in
  let st := snd (registerActions "modalEnd" (pass (ArgArray [f]))
                   (new_ModalElement true None)) in
  isActive st = false /\ calls_during end_ st = [(1, false)].
Proof. vm_compute. split; reflexivity. Qed.

(** C9, amended.  [isActive] changes only after the dispatch: every
    callback called during [start] is called while the getter gives
    false; every callback called during [end] is called while the getter
    still gives what it gave before the call, which is true on an active
    dialog. *)
Theorem callbacks_see_flag_before_it_flips st :
  reachable st ->
  (forall t d e c dl s,
     Forall (fun call => snd call = false) (calls_during (start t d e c dl s) st)) /\
  Forall (fun call => snd call = isActive st) (calls_during end_ st) /\
  (isActive st = true ->
     Forall (fun call => snd call = true) (calls_during end_ st)).
Proof.
  intros R. pose proof (reachable_wf st R) as W.
  assert (E : Forall (fun call => snd call = isActive st) (calls_during end_ st)).
  { erewrite calls_during_added.
    2:{ rewrite end_spec by assumption. cbn [snd]. apply after_end_calls. }
    apply dispatch_calls_flag. }
  split; [|split].
  - intros t d e c dl s. destruct (isActive st) eqn:A.
    + rewrite (calls_during_added _ _ []); [constructor|].
      rewrite start_active by exact A. cbn. now rewrite app_nil_r.
    + erewrite calls_during_added.
      2:{ rewrite start_spec by assumption. cbn [snd].
          now apply after_start_calls. }
      apply dispatch_calls_flag.
  - exact E.
  - intros A. now rewrite A in E.
Qed.

Lemma callbacks_see_flag_before_it_flips_witness :
  let f := {| cb_name := 1; cb_throws := false |} in
  let g := {| cb_name := 2; cb_throws := false |} in
  let st0 := new_ModalElement true None in
  let st1 := run [CallStart (text "T") (text "D") (ArgArray [g]) ArgUndefined ArgUndefined
                    (ArgArray [f])] st0 in
  calls_during (start (text "T") (text "D") (ArgArray [g]) ArgUndefined ArgUndefined
                  (ArgArray [f])) st0 = [(1, false)] /\
  calls_during end_ st1 = [(2, true)] /\
  isActive st1 = true /\
  Forall (fun call => snd call = true) (calls_during end_ st1).
Proof.
  intros f g st0 st1.
  assert (A : isActive st1 = true) by (vm_compute; reflexivity).
  split; [vm_compute; reflexivity|].
  split; [vm_compute; reflexivity|].
  split; [exact A|].
  exact (proj2 (proj2 (callbacks_see_flag_before_it_flips st1
                         (reachable_run _ _ (reachable_new true None)))) A).
Defined.

(** * Clicks on a dialog just started (C4) *)

Lemma cleans_cleanup ty n :
  existsb cleans (new_entries ty (ActsArray [CleanupFn]) n) = true.
Proof. reflexivity. Qed.

Lemma dispatch_calls_cleanup a ty n :
  dispatch_calls a (new_entries ty (ActsArray [CleanupFn]) n) = [].
Proof. reflexivity. Qed.

Lemma existsb_cleans_nil : existsb cleans [] = false.
Proof. reflexivity. Qed.

Lemma dispatch_calls_nil a : dispatch_calls a [] = [].
Proof. reflexivity. Qed.

Lemma filter_nil {A : Type} (p : A -> bool) : filter p [] = [].
Proof. reflexivity. Qed.

Ltac types :=
  repeat progress (
    rewrite ?filter_app, ?filter_new_entries, ?filter_not_new_entries;
    cbn [String.eqb Ascii.eqb Bool.eqb andb];
    rewrite ?dispatch_calls_app, ?existsb_app, ?cleans_pass, ?dispatch_calls_pass,
      ?cleans_cleanup, ?dispatch_calls_cleanup, ?existsb_cleans_nil,
      ?dispatch_calls_nil, ?filter_nil, ?app_nil_r;
    cbn [orb app]).

Lemma started_registry t d e c dl s st :
  wf st -> isActive st = false -> registeredListeners st = [] ->
  exists n1 n2 n3 n4,
    registeredListeners (after_start t d e c dl s st) =
    new_entries "modalConfirm" (pass c) n1 ++
    new_entries "modalDecline" (pass dl) n2 ++
    new_entries "modalEnd" (pass e) n3 ++
    new_entries "modalEnd" (ActsArray [CleanupFn]) n4.
Proof.
  intros W A E. unfold after_start.
  destruct (registering_frame t d e c dl s st) as (R & _).
  destruct (opened_frame c dl (registering t d e c dl s st)) as (_ & -> & _).
  rewrite R, E. cbn [app]. unfold start_entries. lazy zeta.
  do 4 eexists. types. reflexivity.
Qed.

Lemma after_click_ended t st :
  registeredListeners
    (if is_overlay t then after_end (after_button t st) else after_button t st) = [] ->
  after_click t st =
  if is_overlay t then after_end (after_button t st) else after_button t st.
Proof.
  intros H. unfold after_click. lazy zeta. rewrite H.
  rewrite (filter_none (is_registered [])) by reflexivity.
  apply closures_effect_nil.
Qed.

Section Started.

Variables (c dl e : actions_arg) (n1 n2 n3 n4 : nat) (st : state).
Hypothesis W : wf st.
Hypothesis A : isActive st = true.
Hypothesis H : registeredListeners st =
  new_entries "modalConfirm" (pass c) n1 ++
  new_entries "modalDecline" (pass dl) n2 ++
  new_entries "modalEnd" (pass e) n3 ++
  new_entries "modalEnd" (ActsArray [CleanupFn]) n4.

Lemma end_calls_started :
  calls (after_end st) = calls st ++ seen true (until_throw (group e)) /\
  registeredListeners (after_end st) = [].
Proof.
  rewrite after_end_calls, after_end_registered, H, A. types. auto.
Qed.

Lemma confirm_calls_started :
  calls (after_end (after_invokeEvent "modalConfirm" st)) =
    calls st ++ seen true (until_throw (group c)) ++ seen true (until_throw (group e)) /\
  registeredListeners (after_end (after_invokeEvent "modalConfirm" st)) = [].
Proof.
  rewrite after_end_calls, after_end_registered, after_invokeEvent_calls,
    after_invokeEvent_registered, after_invokeEvent_isActive, H, A.
  types. rewrite <- app_assoc. auto.
Qed.

Lemma decline_calls_started :
  calls (after_end (after_invokeEvent "modalDecline" st)) =
    calls st ++ seen true (until_throw (group dl)) ++ seen true (until_throw (group e)) /\
  registeredListeners (after_end (after_invokeEvent "modalDecline" st)) = [].
Proof.
  rewrite after_end_calls, after_end_registered, after_invokeEvent_calls,
    after_invokeEvent_registered, after_invokeEvent_isActive, H, A.
  types. rewrite <- app_assoc. auto.
Qed.

Lemma click_calls_started :
  calls (after_click OnConfirm st) =
    calls st ++ seen true (until_throw (group c)) ++ seen true (until_throw (group e)) /\
  calls (after_click OnDecline st) =
    calls st ++ seen true (until_throw (group dl)) ++ seen true (until_throw (group e)) /\
  calls (after_click OnClose st) = calls st ++ seen true (until_throw (group e)) /\
  calls (after_click OnOverlay st) = calls st ++ seen true (until_throw (group e)).
Proof.
  destruct end_calls_started as [E1 E2].
  destruct confirm_calls_started as [C1 C2].
  destruct decline_calls_started as [D1 D2].
  rewrite !after_click_ended by assumption.
  cbn [is_overlay after_button]. auto.
Qed.

End Started.


(** The calls made by a click on a dialog that [start] has just opened
    from a state with no registered callback: the functions of a group
    are called in order, up to the first one that throws. *)
Lemma click_calls_until_throw t d e c dl s st :
  wf st -> isActive st = false -> registeredListeners st = [] ->
  let st1 := snd (start t d e c dl s st) in
  calls_during (click OnConfirm) st1 =
    seen true (until_throw (group c)) ++ seen true (until_throw (group e)) /\
  calls_during (click OnDecline) st1 =
    seen true (until_throw (group dl)) ++ seen true (until_throw (group e)) /\
  calls_during (click OnClose) st1 = seen true (until_throw (group e)) /\
  calls_during (click OnOverlay) st1 = seen true (until_throw (group e)).
Proof.
  intros W A E. rewrite start_spec by assumption. cbn [snd]. lazy zeta.
  pose proof (wf_after_start t d e c dl s st W) as W1.
  destruct (started_registry t d e c dl s st W A E) as (n1 & n2 & n3 & n4 & R).
  assert (A1 : isActive (after_start t d e c dl s st) = true).
  { unfold after_start.
    now destruct (opened_frame c dl (registering t d e c dl s st)) as (_ & _ & -> & _). }
  destruct (click_calls_started c dl e n1 n2 n3 n4 _ A1 R) as (C1 & C2 & C3 & C4).
  repeat split; apply calls_during_added; rewrite click_spec by assumption;
    cbn [snd]; assumption.
Qed.

(** C4, as stated, fails in two situations.  When an action throws: of
    the confirm actions [f1; f2] with [f1] throwing, a click on the
    confirm button calls [f1] and never [f2].  When a callback was left
    registered before [start]: with [f] registered for [modalConfirm]
    beforehand and passed again in [onConfirmActions], the click calls
    [f] twice. *)
Lemma confirm_click_not_once_each :
  let f1 := {| cb_name := 1; cb_throws := true |} in
  let f2 := {| cb_name := 2; cb_throws := false |} in
  let st1 := snd (start (text "T") (text "D") ArgUndefined (ArgArray [f1; f2]) ArgUndefined
                    ArgUndefined (new_ModalElement true None)) in
  let st2 := snd (start (text "T") (text "D") ArgUndefined (ArgArray [f2]) ArgUndefined
                    ArgUndefined
                    (run [CallRegisterActions "modalConfirm" (ArgArray [f2])]
                         (new_ModalElement true None))) in
  (calls_during (click OnConfirm) st1 = [(1, true)] /\
   calls_during (click OnConfirm) st1 <> seen true [f1; f2] ++ seen true []) /\
  (calls_during (click OnConfirm) st2 = [(2, true); (2, true)] /\
   calls_during (click OnConfirm) st2 <> seen true [f2] ++ seen true []).
Proof.
  vm_compute. split; (split; [reflexivity|discriminate]).
Qed.

(** C4, amended.  On a dialog that [start] has just opened from a state
    with no callback left registered, and provided none of the actions
    throws: a click on the confirm button calls every action of
    [onConfirmActions] once, in the order of the array, then every action
    of [onEndActions] once, in order; a click on the decline button does
    the same with [onDeclineActions]; a click on the close button or on
    the overlay calls the actions of [onEndActions] only. *)
Theorem click_runs_groups t d e c dl s st :
  reachable st -> isActive st = false -> registeredListeners st = [] ->
  forallb (fun f => negb (cb_throws f)) (group c ++ group dl ++ group e) = true ->
  let st1 := snd (start t d e c dl s st) in
  calls_during (click OnConfirm) st1 = seen true (group c) ++ seen true (group e) /\
  calls_during (click OnDecline) st1 = seen true (group dl) ++ seen true (group e) /\
  calls_during (click OnClose) st1 = seen true (group e) /\
  calls_during (click OnOverlay) st1 = seen true (group e).
Proof.
  intros R A E T.
  rewrite !forallb_app in T.
  apply andb_true_iff in T as [Tc T]. apply andb_true_iff in T as [Td Te].
  pose proof (click_calls_until_throw t d e c dl s st (reachable_wf st R) A E) as P.
  lazy zeta in P.
  rewrite (until_throw_all _ Tc), (until_throw_all _ Td), (until_throw_all _ Te) in P.
  exact P.
Qed.

Lemma click_runs_groups_witness :
  let f1 := {| cb_name := 1; cb_throws := false |} in
  let f2 := {| cb_name := 2; cb_throws := false |} in
  let f3 := {| cb_name := 3; cb_throws := false |} in
  let st1 := snd (start (text "T") (text "D") (ArgArray [f3]) (ArgArray [f1; f2]) ArgUndefined
                    ArgUndefined (new_ModalElement true None)) in
  calls_during (click OnConfirm) st1 = [(1, true); (2, true); (3, true)] /\
  calls_during (click OnDecline) st1 = [(3, true)] /\
  calls_during (click OnClose) st1 = [(3, true)] /\
  calls_during (click OnOverlay) st1 = [(3, true)].
Proof.
  intros f1 f2 f3.
  exact (click_runs_groups (text "T") (text "D") (ArgArray [f3]) (ArgArray [f1; f2]) ArgUndefined
           ArgUndefined (new_ModalElement true None) (reachable_new true None)
           eq_refl eq_refl eq_refl).
Defined.

(** * A running invocation (C2, C6) *)

Ltac split_running := unfold running; split; [|split; [|split]].

Lemma running_start t d e c dl s st :
  wf st -> isActive st = false ->
  running (activeElement st) (after_start t d e c dl s st).
Proof.
  intros W A.
  pose proof (wf_after_start t d e c dl s st W) as W1.
  assert (W6 : wf (registering t d e c dl s st)) by (unfold registering; wf_tac).
  unfold after_start in *.
  destruct (registering_frame t d e c dl s st) as (R & _ & _ & F & _).
  destruct (opened_frame c dl (registering t d e c dl s st))
    as (_ & Rg & Ac & Tg).
  split_running; [exact W1|exact Ac| |now rewrite Tg, F].
  rewrite (no_cleanup_elsewhere' "modalStart" _ W6 eq_refl) in Rg.
  unfold has_cleanup. rewrite Rg, R.
  eexists {| r_type := "modalEnd";
             r_listener := {| c_id := _; c_actions := [CleanupFn] |} |}.
  split; [|split; reflexivity].
  apply filter_In. split; [|reflexivity].
  apply in_or_app. right. unfold start_entries. lazy zeta.
  do 4 (apply in_or_app; right). left. reflexivity.
Qed.

Lemma has_cleanup_kept ty regs :
  String.eqb ty "modalEnd" = false ->
  (exists r, In r regs /\ r_type r = "modalEnd" /\ cleans r = true) ->
  exists r, In r (filter (fun r => negb (has_type ty r)) regs) /\
            r_type r = "modalEnd" /\ cleans r = true.
Proof.
  intros Hty (r & Hin & T & C). exists r.
  split; [|split; assumption].
  apply filter_In. split; [exact Hin|].
  unfold has_type. rewrite T, String.eqb_sym, Hty. reflexivity.
Qed.

Lemma running_after_invokeEvent target ty st :
  String.eqb ty "modalEnd" = false ->
  running target st -> running target (after_invokeEvent ty st).
Proof.
  intros Hty (W & A & K & T). split_running.
  - now apply wf_after_invokeEvent.
  - now rewrite after_invokeEvent_isActive.
  - unfold has_cleanup. rewrite after_invokeEvent_registered.
    rewrite (no_cleanup_elsewhere' ty st W Hty).
    now apply has_cleanup_kept.
  - now rewrite after_invokeEvent_target.
Qed.

Lemma running_after_registerActions target ty a st :
  running target st -> running target (after_registerActions ty (pass a) st).
Proof.
  intros (W & A & (r & Hin & Ty & C) & T). split_running.
  - now apply wf_after_registerActions_pass.
  - now rewrite after_registerActions_isActive.
  - exists r. rewrite after_registerActions_registered.
    split; [|split; assumption]. apply in_or_app. now left.
  - now rewrite after_registerActions_target.
Qed.

Lemma running_set_modal target f st :
  (forall d, listeners (f d) = listeners d) ->
  running target st -> running target (set_modal f st).
Proof.
  intros F (W & A & K & T). split_running; try assumption.
  now apply wf_set_modal.
Qed.

Lemma running_detach target ty st :
  String.eqb ty "modalEnd" = false ->
  running target st -> running target (detach ty st).
Proof.
  intros Hty (W & A & K & T). unfold detach. split_running.
  - now apply wf_detach.
  - now rewrite isActive_with_callbacks.
  - unfold has_cleanup. rewrite registeredListeners_with_callbacks.
    now apply has_cleanup_kept.
  - now rewrite preModalFocusTarget_with_callbacks.
Qed.

Lemma running_quiet target o st :
  running target st -> quiet o = true -> running target (snd (step o st)).
Proof.
  intros Rn Q. pose proof Rn as (W & A & K & T).
  destruct o as [t d e c dl s| |ty a|ev|v|v|tg|el]; cbn [step]; cbn in Q;
    try discriminate.
  - now rewrite start_active.
  - rewrite registerActions_spec by assumption.
    now apply running_after_registerActions.
  - rewrite invokeEvent_state by assumption. unfold after_invoke.
    destruct (accepted ev) as [ty|] eqn:Ac; [|exact Rn].
    apply andb_true_iff in Q as [Q1 Q2]. apply negb_true_iff in Q1.
    destruct (heard ev) as [ty'|] eqn:H; [|now apply running_detach].
    pose proof (heard_accepted _ _ H) as Ac'. rewrite Ac in Ac'.
    injection Ac' as ->.
    apply negb_true_iff in Q2. rewrite String.eqb_sym, Q2.
    now apply running_after_invokeEvent.
  - rewrite set_confirmText_spec. cbn [snd].
    apply running_set_modal; [apply listeners_label_assigned|exact Rn].
  - rewrite set_declineText_spec. cbn [snd].
    apply running_set_modal; [apply listeners_label_assigned|exact Rn].
  - destruct tg; try discriminate.
    rewrite click_spec by assumption. cbn [snd].
    unfold after_click. cbn [is_overlay after_button]. lazy zeta.
    split_running.
    + wf_tac.
    + now rewrite closures_effect_isActive.
    + unfold has_cleanup. rewrite closures_effect_registered.
      now rewrite (no_cleanup_elsewhere "click" _ st W eq_refl).
    + now rewrite closures_effect_target.
  - cbn [snd modify]. split_running; try assumption. wf_tac.
Qed.

Lemma running_run target ops : forall st,
  running target st -> forallb quiet ops = true -> running target (run ops st).
Proof.
  induction ops as [|o ops IH]; intros st Rn Q; cbn [run]; [exact Rn|].
  cbn [forallb] in Q. apply andb_true_iff in Q as [Q1 Q2].
  apply IH; [|exact Q2]. now apply running_quiet.
Qed.

Lemma after_end_activeElement st :
  activeElement (after_end st) =
  activeElement (refocused (set_modal (set_modal_display None) st)).
Proof.
  unfold after_end. autorewrite with proj.
  rewrite after_invokeEvent_activeElement. now autorewrite with proj.
Qed.

Lemma running_after_end target st : running target st -> ended target (after_end st).
Proof.
  intros (W & A & K & T).
  pose proof (wf_after_end st W) as W'.
  assert (R : registeredListeners (after_end st) = []).
  { rewrite after_end_registered, (has_cleanup_cleans st K). reflexivity. }
  unfold ended. split; [exact W'|]. split; [exact R|]. split; [|split].
  - rewrite (wf_mirror _ W'), R. reflexivity.
  - apply after_end_isActive.
  - intros a ->. rewrite after_end_activeElement.
    unfold refocused. autorewrite with proj. rewrite T. reflexivity.
Qed.

Lemma ended_detach target ty st : ended target st -> ended target (detach ty st).
Proof.
  intros (W & R & L & A & F). unfold ended, detach.
  autorewrite with proj. rewrite R. cbn [filter map].
  split; [rewrite <- R; now apply wf_with_callbacks; apply W|].
  split; [reflexivity|]. split; [reflexivity|]. split; assumption.
Qed.

Lemma closing_ends target o st :
  running target st -> closing o = true -> ended target (snd (step o st)).
Proof.
  intros Rn C. pose proof Rn as (W & A & K & T).
  destruct o as [| | |ev| | |tg|]; cbn in C; try discriminate; cbn [step].
  - rewrite end_spec by assumption. now apply running_after_end.
  - destruct (heard ev) as [ty|] eqn:H; [|discriminate].
    apply String.eqb_eq in C. subst ty.
    rewrite invokeEvent_click_spec by assumption. cbn [snd].
    unfold after_click_event.
    pose proof (running_after_end target st Rn) as E.
    destruct E as (W' & R' & L' & A' & F').
    rewrite R', (filter_none (is_registered [])), closures_effect_nil by reflexivity.
    apply ended_detach. unfold ended. auto.
  - rewrite click_spec by assumption. cbn [snd].
    destruct tg; try discriminate.
    + pose proof (running_after_end target st Rn) as E.
      rewrite after_click_ended; cbn [is_overlay after_button]; [exact E|apply E].
    + pose proof (running_after_end target st Rn) as E.
      rewrite after_click_ended; cbn [is_overlay after_button]; [exact E|apply E].
    + pose proof (running_after_end target _
        (running_after_invokeEvent target "modalConfirm" st eq_refl Rn)) as E.
      rewrite after_click_ended; cbn [is_overlay after_button]; [exact E|apply E].
    + pose proof (running_after_end target _
        (running_after_invokeEvent target "modalDecline" st eq_refl Rn)) as E.
      rewrite after_click_ended; cbn [is_overlay after_button]; [exact E|apply E].
Qed.

(** On an instance with nothing registered, a dispatch calls nothing. *)
Lemma invokeEvent_nothing ev st :
  wf st -> registeredListeners st = [] ->
  calls (snd (invokeEvent ev st)) = calls st.
Proof.
  intros W R.
  assert (E0 : calls (after_end st) = calls st).
  { rewrite after_end_calls, R. cbn. apply app_nil_r. }
  rewrite invokeEvent_state by exact W. unfold after_invoke.
  destruct (accepted ev) as [ty|]; [|reflexivity].
  destruct (heard ev).
  - destruct (String.eqb "click" ty).
    + unfold after_click_event. rewrite R. cbn [filter].
      rewrite closures_effect_nil. unfold detach. now autorewrite with proj.
    + rewrite after_invokeEvent_calls, R. cbn. apply app_nil_r.
  - unfold detach. now autorewrite with proj.
Qed.

Lemma next_start_calls t d e c dl s st :
  wf st -> isActive st = false -> registeredListeners st = [] ->
  calls_during (start t d e c dl s) st = seen false (until_throw (group s)).
Proof.
  intros W A R. apply calls_during_added.
  rewrite start_spec by assumption. cbn [snd].
  rewrite after_start_calls by assumption. rewrite R. cbn [app].
  unfold start_entries. lazy zeta. types. reflexivity.
Qed.

(** C2: the code at [start("T", "D")], [invokeEvent(new
    CustomEvent("modalEnd"))], [registerActions("modalConfirm", [g])],
    [end()].  The cleanup closure of [start] (lines 255-263) is spent by
    the dispatch by hand, so the callback registered afterwards, still
    during the invocation, survives [end]: it stays registered, and a
    later [invokeEvent] of [modalConfirm] calls it. *)
Lemma callback_survives_end_after_manual_modalEnd :
  let g := {| cb_name := 9; cb_throws := false |} in
  let during :=
    run [CallStart (text "T") (text "D") ArgUndefined ArgUndefined ArgUndefined ArgUndefined;
         CallInvokeEvent (AnEvent (CustomEvent "modalEnd"))]
        (new_ModalElement true None) in
  let st := run [CallRegisterActions "modalConfirm" (ArgArray [g]); CallEnd] during in
  isActive during = true /\
  isActive st = false /\
  registeredListeners st <> [] /\
  calls_during (invokeEvent (AnEvent onConfirm)) st = [(9, false)].
Proof.
  vm_compute. split; [reflexivity|]. split; [reflexivity|].
  split; [discriminate|reflexivity].
Qed.

(** X22.  For every invocation during which no [modalEnd] event is
    dispatched by hand: once the invocation has ended, by [end] or by a
    click on the close, confirm or decline button or on the overlay, no
    callback is registered and no listener of [registerActions] is
    attached any more, whether it was registered by [start] or by
    [registerActions] during the invocation; a later [invokeEvent] of
    anything calls nothing, and the next [start] calls its own
    [onStartActions] only. *)
Theorem callbacks_detached_after_end t d e c dl s ops o st :
  reachable st -> isActive st = false ->
  forallb quiet ops = true -> closing o = true ->
  let st3 := snd (step o (run ops (snd (start t d e c dl s st)))) in
  registeredListeners st3 = [] /\
  listeners (modal st3) = [OverlayClick] /\
  (forall ev, calls_during (invokeEvent ev) st3 = []) /\
  (forall t' d' e' c' dl' s',
     calls_during (start t' d' e' c' dl' s') st3 = seen false (until_throw (group s'))).
Proof.
  intros R A Q C. pose proof (reachable_wf st R) as W.
  rewrite start_spec by assumption. cbn [snd]. lazy zeta.
  pose proof (running_start t d e c dl s st W A) as Rn.
  pose proof (running_run _ ops _ Rn Q) as Rn'.
  destruct (closing_ends _ o _ Rn' C) as (W3 & R3 & L3 & A3 & _).
  split; [exact R3|]. split; [exact L3|]. split.
  - intros ev. apply calls_during_added.
    rewrite invokeEvent_nothing by assumption. now rewrite app_nil_r.
  - intros. now apply next_start_calls.
Qed.

Lemma callbacks_detached_after_end_witness :
  let f := {| cb_name := 1; cb_throws := false |} in
  let g := {| cb_name := 2; cb_throws := false |} in
  let st3 :=
    snd (step (Click OnConfirm)
           (run [CallRegisterActions "modalDecline" (ArgArray [g]);
                 CallInvokeEvent (AnEvent (CustomEvent "modalStart"))]
                (snd (start (text "T") (text "D") (ArgArray [g]) (ArgArray [f]) ArgUndefined
                        (ArgArray [f]) (new_ModalElement true None))))) in
  registeredListeners st3 = [] /\
  listeners (modal st3) = [OverlayClick] /\
  (forall ev, calls_during (invokeEvent ev) st3 = []) /\
  (forall t' d' e' c' dl' s',
     calls_during (start t' d' e' c' dl' s') st3 = seen false (until_throw (group s'))).
Proof.
  intros f g.
  exact (callbacks_detached_after_end (text "T") (text "D") (ArgArray [g]) (ArgArray [f])
           ArgUndefined (ArgArray [f])
           [CallRegisterActions "modalDecline" (ArgArray [g]);
            CallInvokeEvent (AnEvent (CustomEvent "modalStart"))]
           (Click OnConfirm) (new_ModalElement true None)
           (reachable_new true None) eq_refl eq_refl eq_refl).
Defined.


(** * The recorded focus target (C6) *)








(** * The scenario of the specification

    [start("T", "D", undefined, [f], undefined, undefined)] shows the
    confirm button and not the decline button; a click on the confirm
    button calls [f] once and leaves the dialog inactive; a second
    dispatch of the confirm event calls nothing. *)
Example confirm_scenario :
  let f := {| cb_name := 1; cb_throws := false |} in
  let st1 := snd (start (text "T") (text "D") ArgUndefined (ArgArray [f]) ArgUndefined
                    ArgUndefined (new_ModalElement true None)) in
  let st2 := snd (click OnConfirm st1) in
  confirm_display (modal st1) = Some "block" /\
  decline_display (modal st1) = None /\
  calls st2 = [(1, true)] /\
  isActive st2 = false /\
  calls (snd (invokeEvent (AnEvent onConfirm) st2)) = [(1, true)].
Proof. vm_compute. auto. Qed.

(** * What the page shows *)

Lemma face_set_listeners ls st : face (set_modal (set_listeners ls) st) = face st.
Proof. reflexivity. Qed.

Lemma face_with_callbacks regs st : face (with_callbacks regs st) = face st.
Proof. reflexivity. Qed.

Lemma face_logged t st : face (logged t st) = face st.
Proof. reflexivity. Qed.

Lemma face_set_isActive b st : face (set_isActive b st) = face st.
Proof. reflexivity. Qed.

Lemma face_set_preModalFocusTarget t st : face (set_preModalFocusTarget t st) = face st.
Proof. reflexivity. Qed.

Lemma face_set_activeElement e st : face (set_activeElement e st) = face st.
Proof. reflexivity. Qed.

Lemma face_set_nextClosure n st : face (set_nextClosure n st) = face st.
Proof. reflexivity. Qed.

Lemma face_assign_innerHTML cls l st :
  face (set_modal (assign_innerHTML cls l) st) = assign_innerHTML cls l (face st).
Proof.
  unfold face, assign_innerHTML. cbn [modal set_modal].
  change (modal_child cls (set_listeners [] (modal st)))
    with (modal_child cls (modal st)).
  destruct (modal_child cls (modal st)) as [[[]| |]|]; reflexivity.
Qed.

Lemma face_assign_display cls v st :
  face (set_modal (assign_display cls v) st) = assign_display cls v (face st).
Proof.
  unfold face, assign_display. cbn [modal set_modal].
  change (modal_child cls (set_listeners [] (modal st)))
    with (modal_child cls (modal st)).
  destruct (modal_child cls (modal st)) as [[[]| |]|]; reflexivity.
Qed.

Lemma face_label_assigned cls default v st :
  face (set_modal (label_assigned cls default v) st) =
  label_assigned cls default v (face st).
Proof.
  unfold face, label_assigned. cbn [modal set_modal].
  change (modal_child cls (set_listeners [] (modal st)))
    with (modal_child cls (modal st)).
  destruct (modal_child cls (modal st)) as [c|]; [|reflexivity].
  change (has_innerText c (set_listeners [] (modal st)))
    with (has_innerText c (modal st)).
  destruct (has_innerText c (modal st)); [|reflexivity].
  destruct (ToString _); [|reflexivity].
  destruct c as [[]| |]; reflexivity.
Qed.

Lemma face_set_modal_display v st :
  face (set_modal (set_modal_display v) st) = set_modal_display v (face st).
Proof. reflexivity. Qed.

Create Rewrite HintDb face.
#[global] Hint Rewrite face_set_listeners face_with_callbacks face_logged
  face_set_isActive face_set_preModalFocusTarget face_set_activeElement
  face_set_nextClosure face_assign_innerHTML face_assign_display
  face_label_assigned face_set_modal_display : face.

Lemma face_closures_effect rs st : face (closures_effect rs st) = face st.
Proof. unfold closures_effect. now destruct (existsb cleans rs). Qed.

Lemma face_detach ty st : face (detach ty st) = face st.
Proof. reflexivity. Qed.

Lemma face_after_invokeEvent ty st : face (after_invokeEvent ty st) = face st.
Proof.
  unfold after_invokeEvent, after_dispatch.
  now rewrite face_detach, face_closures_effect.
Qed.

Lemma face_after_registerActions ty a st :
  face (after_registerActions ty a st) = face st.
Proof. now destruct a. Qed.

Lemma face_focus e st : face (snd (focus e st)) = face st.
Proof.
  unfold face. now destruct (focus_frame e st) as (-> & _).
Qed.

Lemma face_refocused st : face (refocused st) = face st.
Proof.
  unfold face. now destruct (refocused_frame st) as (-> & _).
Qed.

Lemma face_after_end st : face (after_end st) = set_modal_display None (face st).
Proof.
  unfold after_end.
  rewrite face_set_isActive, face_after_invokeEvent, face_set_preModalFocusTarget,
    face_refocused.
  apply face_set_modal_display.
Qed.

Lemma face_after_start t d e c dl s st :
  face (after_start t d e c dl s st) =
  set_modal_display (Some "block")
    (assign_display "md-decline" (display_for dl)
       (assign_display "md-confirm" (display_for c)
          (assign_innerHTML "md-description" d
             (assign_innerHTML "md-title" t (face st))))).
Proof.
  unfold after_start, opened, registering. lazy zeta.
  rewrite face_set_isActive, face_after_invokeEvent, face_set_activeElement,
    face_set_preModalFocusTarget, face_set_modal_display, !face_assign_display,
    !face_after_registerActions, !face_assign_innerHTML.
  reflexivity.
Qed.

Lemma face_after_button t st :
  face (after_button t st) =
  match t with
  | OnClose | OnConfirm | OnDecline => set_modal_display None (face st)
  | OnOverlay | OnContent => face st
  end.
Proof.
  destruct t; cbn [after_button]; try reflexivity;
    now rewrite face_after_end, ?face_after_invokeEvent.
Qed.

Lemma face_after_click t st :
  face (after_click t st) =
  match t with
  | OnContent => face st
  | _ => set_modal_display None (face st)
  end.
Proof.
  unfold after_click. lazy zeta. rewrite face_closures_effect.
  destruct t; unfold is_overlay; lazy iota.
  - now rewrite face_after_end, face_after_button.
  - now rewrite face_after_button.
  - now rewrite face_after_button.
  - now rewrite face_after_button.
  - now rewrite face_after_button.
Qed.

(** The fields of the subtree read through [face]. *)
Lemma title_face st : title_children (modal st) = title_children (face st).
Proof. reflexivity. Qed.

Lemma description_face st :
  description_children (modal st) = description_children (face st).
Proof. reflexivity. Qed.

Lemma confirm_text_face st : confirm_innerText (modal st) = confirm_innerText (face st).
Proof. reflexivity. Qed.

Lemma decline_text_face st : decline_innerText (modal st) = decline_innerText (face st).
Proof. reflexivity. Qed.

Lemma confirm_display_face st : confirm_display (modal st) = confirm_display (face st).
Proof. reflexivity. Qed.

Lemma decline_display_face st : decline_display (modal st) = decline_display (face st).
Proof. reflexivity. Qed.

Lemma modal_display_face st : modal_display (modal st) = modal_display (face st).
Proof. reflexivity. Qed.

Lemma face_after_click_event st :
  face (after_click_event st) = set_modal_display None (face st).
Proof.
  unfold after_click_event.
  now rewrite face_detach, face_closures_effect, face_after_end.
Qed.

Lemma face_after_invoke event st :
  face (after_invoke event st) =
  match heard event with
  | Some ty => if String.eqb ty "click" then set_modal_display None (face st)
               else face st
  | None => face st
  end.
Proof.
  unfold after_invoke. destruct (heard event) as [ty|] eqn:H.
  - rewrite (heard_accepted _ _ H), (String.eqb_sym ty).
    destruct (String.eqb "click" ty);
      [apply face_after_click_event|apply face_after_invokeEvent].
  - destruct (accepted event); [apply face_detach|reflexivity].
Qed.

(** What an operation does to the subtree, on a reachable instance. *)
Lemma face_step o st :
  wf st ->
  face (snd (step o st)) =
  match o with
  | CallStart t d e c dl s =>
      if isActive st then face st
      else set_modal_display (Some "block")
             (assign_display "md-decline" (display_for dl)
                (assign_display "md-confirm" (display_for c)
                   (assign_innerHTML "md-description" d
                      (assign_innerHTML "md-title" t (face st)))))
  | CallEnd => set_modal_display None (face st)
  | CallRegisterActions _ _ => face st
  | CallInvokeEvent event =>
      match heard event with
      | Some ty => if String.eqb ty "click" then set_modal_display None (face st)
                   else face st
      | None => face st
      end
  | AssignConfirmText v => label_assigned "md-confirm" DEFAULT_CONFIRM_TEXT v (face st)
  | AssignDeclineText v => label_assigned "md-decline" DEFAULT_DECLINE_TEXT v (face st)
  | Click OnContent => face st
  | Click _ => set_modal_display None (face st)
  | PageFocus _ => face st
  end.
Proof.
  intros W. destruct o as [t d e c dl s| |ty a|ev|v|v|tg|el]; cbn [step].
  - destruct (isActive st) eqn:A.
    + now rewrite start_active.
    + rewrite start_spec by assumption. apply face_after_start.
  - rewrite end_spec by assumption. apply face_after_end.
  - rewrite registerActions_spec by assumption. apply face_after_registerActions.
  - rewrite invokeEvent_state by assumption. apply face_after_invoke.
  - rewrite set_confirmText_spec. apply face_label_assigned.
  - rewrite set_declineText_spec. apply face_label_assigned.
  - rewrite click_spec by assumption. cbn [snd]. rewrite face_after_click.
    now destruct tg.
  - reflexivity.
Qed.

(** * Properties beyond the claims *)

(** ** The only error *)




(** ** The registry and the listeners *)

(** X2.  In every state an instance reaches, the listeners attached to
    [#modal] are the click listener of the constructor followed by the
    closures of [#registeredListeners], in the order of registration, and
    no closure is registered twice. *)
Theorem registry_mirrors_listeners st :
  reachable st ->
  listeners (modal st) = OverlayClick :: map att (registeredListeners st) /\
  NoDup (map r_id (registeredListeners st)).
Proof.
  intros R. pose proof (reachable_wf st R) as W.
  split; [apply (wf_mirror _ W)|apply (wf_nodup _ W)].
Qed.

Lemma registry_mirrors_listeners_witness :
  let f := {| cb_name := 1; cb_throws := false |} in
  let st :=
    run [CallRegisterActions "modalConfirm" (ArgArray [f]);
         CallStart (text "T") (text "D") (ArgArray [f]) ArgNull (ArgArray []) (ArgArray [f]);
         CallInvokeEvent (AnEvent (CustomEvent "modalConfirm"))]
        (new_ModalElement true None) in
  List.length (registeredListeners st) = 3 /\
  listeners (modal st) = OverlayClick :: map att (registeredListeners st) /\
  NoDup (map r_id (registeredListeners st)).
Proof.
  intros f st. split; [vm_compute; reflexivity|].
  exact (registry_mirrors_listeners st (reachable_run _ _ (reachable_new true None))).
Defined.

(** ** [end] twice *)

Lemma filter_filter_neg {A : Type} (p : A -> bool) (l : list A) :
  filter p (filter (fun x => negb (p x)) l) = [].
Proof.
  apply filter_none. intros x Hx. apply filter_In in Hx as [_ Hx].
  now apply negb_true_iff in Hx.
Qed.

Lemma set_isActive_same b st : isActive st = b -> set_isActive b st = st.
Proof. destruct st; cbn; now intros <-. Qed.

Lemma set_preModalFocusTarget_same t st :
  preModalFocusTarget st = t -> set_preModalFocusTarget t st = st.
Proof. destruct st; cbn; now intros <-. Qed.

Lemma set_modal_display_same v st :
  modal_display (modal st) = v -> set_modal (set_modal_display v) st = st.
Proof. destruct st as [m ? ? ? ? ? ?]; destruct m; cbn; now intros <-. Qed.

Lemma after_invokeEvent_none ty st :
  wf st -> filter (has_type ty) (registeredListeners st) = [] ->
  after_invokeEvent ty st = st.
Proof.
  intros W H. unfold after_invokeEvent, after_dispatch. rewrite H.
  rewrite closures_effect_nil. unfold detach.
  rewrite filter_all; [now apply with_callbacks_self|].
  intros r Hr. apply negb_true_iff. apply not_true_is_false. intros T.
  assert (In r (filter (has_type ty) (registeredListeners st)))
    by (apply filter_In; auto).
  rewrite H in *. contradiction.
Qed.

Lemma after_end_fixed st :
  wf st -> isActive st = false -> preModalFocusTarget st = None ->
  modal_display (modal st) = None ->
  filter (has_type "modalEnd") (registeredListeners st) = [] ->
  after_end st = st.
Proof.
  intros W A T D E. unfold after_end.
  rewrite (set_modal_display_same None st D).
  unfold refocused. rewrite T.
  rewrite (set_preModalFocusTarget_same None st T).
  rewrite (after_invokeEvent_none _ st W E).
  now apply set_isActive_same.
Qed.

Lemma after_end_settles st :
  wf st ->
  let st' := after_end st in
  wf st' /\ isActive st' = false /\ preModalFocusTarget st' = None /\
  modal_display (modal st') = None /\
  filter (has_type "modalEnd") (registeredListeners st') = [].
Proof.
  intros W. lazy zeta.
  split; [now apply wf_after_end|]. split; [apply after_end_isActive|].
  split; [apply after_end_target|]. split.
  - now rewrite modal_display_face, face_after_end.
  - rewrite after_end_registered. apply filter_filter_neg.
Qed.

(** X3.  [end] is idempotent: a second [end] right after the first
    changes nothing and calls nothing. *)
Theorem end_twice st :
  reachable st -> end_ (snd (end_ st)) = (Normal tt, snd (end_ st)).
Proof.
  intros R. pose proof (reachable_wf st R) as W.
  rewrite (end_spec st W). cbn [snd].
  destruct (after_end_settles st W) as (W' & A & T & D & E).
  rewrite (end_spec _ W').
  now rewrite after_end_fixed.
Qed.

Lemma end_twice_witness :
  let f := {| cb_name := 1; cb_throws := false |} in
  let st := run [CallStart (text "T") (text "D") (ArgArray [f]) (ArgArray [f]) ArgUndefined
                   ArgUndefined]
                (new_ModalElement true (Some (PageElement 3))) in
  calls_during end_ st = [(1, true)] /\
  end_ (snd (end_ st)) = (Normal tt, snd (end_ st)).
Proof.
  intros f st. split; [vm_compute; reflexivity|].
  exact (end_twice st (reachable_run _ _ (reachable_new _ _))).
Defined.

(** ** A click inside the content panel *)

(** X4.  A click on the content panel, outside the buttons, does not
    close the dialog: when no callback is registered for click events it
    leaves the instance exactly as it was. *)
Theorem click_on_content_does_nothing st :
  reachable st ->
  filter (has_type "click") (registeredListeners st) = [] ->
  click OnContent st = (Normal tt, st).
Proof.
  intros R H. rewrite click_spec by now apply reachable_wf.
  unfold after_click. cbn [after_button is_overlay]. lazy zeta.
  now rewrite H, closures_effect_nil.
Qed.

Lemma click_on_content_does_nothing_witness :
  let f := {| cb_name := 1; cb_throws := false |} in
  let st := run [CallStart (text "T") (text "D") (ArgArray [f]) (ArgArray [f]) ArgUndefined
                   ArgUndefined]
                (new_ModalElement true None) in
  isActive st = true /\ click OnContent st = (Normal tt, st).
Proof.
  intros f st. split; [vm_compute; reflexivity|].
  apply click_on_content_does_nothing.
  - exact (reachable_run _ _ (reachable_new _ _)).
  - vm_compute. reflexivity.
Defined.

(** ** [invokeEvent] *)

Lemma filter_empty_In {A : Type} (p : A -> bool) (l : list A) x :
  filter p l = [] -> In x l -> p x = false.
Proof.
  intros H Hx. apply not_true_is_false. intros T.
  assert (In x (filter p l)) by (apply filter_In; auto).
  rewrite H in *. contradiction.
Qed.

Lemma detach_none ty st :
  wf st -> filter (has_type ty) (registeredListeners st) = [] -> detach ty st = st.
Proof.
  intros W H. unfold detach.
  rewrite filter_all; [now apply with_callbacks_self|].
  intros r Hr. apply negb_true_iff. exact (filter_empty_In _ _ r H Hr).
Qed.

(** X5.  [invokeEvent] of an event that can be dispatched and is
    neither [modalEnd] nor a click removes from the registry exactly the
    entries of the event's type: the entries of the other types stay, in
    their order, and [isActive] is not changed. *)
Theorem invokeEvent_removes_its_type ev st :
  reachable st ->
  dispatchable ev = true ->
  String.eqb (ev_type ev) "modalEnd" = false ->
  String.eqb (ev_type ev) "click" = false ->
  registeredListeners (snd (invokeEvent (AnEvent ev) st)) =
    filter (fun r => negb (has_type (ev_type ev) r)) (registeredListeners st) /\
  isActive (snd (invokeEvent (AnEvent ev) st)) = isActive st.
Proof.
  intros R D E C. pose proof (reachable_wf st R) as W.
  rewrite invokeEvent_state by exact W. unfold after_invoke, accepted, heard.
  rewrite D. cbn [andb]. destruct (ev_stop_propagation ev); cbn [negb].
  - unfold detach. now autorewrite with proj.
  - rewrite String.eqb_sym, C.
    rewrite after_invokeEvent_registered, after_invokeEvent_isActive.
    now rewrite (no_cleanup_elsewhere' _ st W E).
Qed.

Lemma invokeEvent_removes_its_type_witness :
  let f := {| cb_name := 1; cb_throws := false |} in
  let st := run [CallStart (text "T") (text "D") (ArgArray [f]) (ArgArray [f]) (ArgArray [f])
                   ArgUndefined]
                (new_ModalElement true None) in
  map r_type (registeredListeners st) =
    ["modalConfirm"; "modalDecline"; "modalEnd"; "modalEnd"] /\
  map r_type (registeredListeners (snd (invokeEvent (AnEvent onDecline) st))) =
    ["modalConfirm"; "modalEnd"; "modalEnd"] /\
  registeredListeners (snd (invokeEvent (AnEvent onDecline) st)) =
    filter (fun r => negb (has_type (ev_type onDecline) r)) (registeredListeners st).
Proof.
  intros f st. split; [vm_compute; reflexivity|]. split; [vm_compute; reflexivity|].
  exact (proj1 (invokeEvent_removes_its_type onDecline st
                  (reachable_run _ _ (reachable_new _ _)) eq_refl eq_refl eq_refl)).
Defined.

(** X6.  The callbacks are one-shot: for an event that [dispatchEvent]
    accepts and whose propagation is not stopped, a second [invokeEvent]
    of the event, right after the first, calls nothing and changes
    nothing. *)
Theorem invokeEvent_twice event st :
  reachable st -> heard event <> None ->
  invokeEvent event (snd (invokeEvent event st)) =
  (Normal tt, snd (invokeEvent event st)).
Proof.
  intros R H. pose proof (reachable_wf st R) as W.
  destruct (heard event) as [ty|] eqn:Hty; [clear H|congruence].
  destruct (String.eqb "click" ty) eqn:E.
  - apply String.eqb_eq in E. subst ty.
    rewrite (invokeEvent_click_spec event st W Hty). cbn [snd].
    unfold after_click_event.
    destruct (after_end_settles st W) as (W1 & A1 & T1 & D1 & E1).
    set (X := filter _ (filter (has_type "click") (registeredListeners st))).
    assert (W2 : wf (detach "click" (closures_effect X (after_end st)))) by wf_tac.
    assert (In2 : forall r,
      In r (registeredListeners (detach "click" (closures_effect X (after_end st)))) ->
      In r (registeredListeners (after_end st)) /\ has_type "click" r = false).
    { intros r Hr. unfold detach in Hr. autorewrite with proj in Hr.
      apply filter_In in Hr as [Hr Hc]. apply negb_true_iff in Hc.
      rewrite closures_effect_registered in Hr.
      destruct (existsb cleans X); [contradiction|auto]. }
    rewrite (invokeEvent_click_spec event _ W2 Hty).
    unfold after_click_event.
    rewrite (after_end_fixed _ W2).
    + rewrite (filter_none (has_type "click")) by (intros r Hr; apply In2, Hr).
      cbn [filter]. rewrite closures_effect_nil.
      rewrite detach_none; [reflexivity|exact W2|].
      apply filter_none. intros r Hr. apply In2, Hr.
    + unfold detach. autorewrite with proj.
      now rewrite closures_effect_isActive.
    + unfold detach. autorewrite with proj.
      now rewrite closures_effect_target.
    + now rewrite modal_display_face, face_detach, face_closures_effect,
        <- modal_display_face.
    + apply filter_none. intros r Hr. apply In2 in Hr as [Hr _].
      exact (filter_empty_In _ _ r E1 Hr).
  - rewrite (invokeEvent_spec event ty st W Hty E). cbn [snd].
    rewrite (invokeEvent_spec event ty); [|now apply wf_after_invokeEvent|exact Hty|exact E].
    rewrite after_invokeEvent_none; [reflexivity|now apply wf_after_invokeEvent|].
    rewrite after_invokeEvent_registered. apply filter_filter_neg.
Qed.

Lemma invokeEvent_twice_witness :
  let f := {| cb_name := 1; cb_throws := false |} in
  let st := run [CallStart (text "T") (text "D") (ArgArray [f]) (ArgArray [f]) ArgUndefined
                   ArgUndefined]
                (new_ModalElement true None) in
  calls_during (invokeEvent (AnEvent onConfirm)) st = [(1, true)] /\
  invokeEvent (AnEvent onConfirm) (snd (invokeEvent (AnEvent onConfirm) st)) =
    (Normal tt, snd (invokeEvent (AnEvent onConfirm) st)).
Proof.
  intros f st. split; [vm_compute; reflexivity|].
  exact (invokeEvent_twice (AnEvent onConfirm) st
           (reachable_run _ _ (reachable_new _ _)) ltac:(discriminate)).
Defined.

(** X7.  Groups registered by separate calls of [registerActions] for
    one event type run in the order of registration, and an action that
    throws ends its own group only: the next group still runs from its
    first action. *)
Theorem groups_run_in_order_and_fail_apart ty a1 a2 st :
  reachable st ->
  String.eqb ty "click" = false ->
  filter (has_type ty) (registeredListeners st) = [] ->
  calls_during (invokeEvent (AnEvent (CustomEvent ty)))
    (run [CallRegisterActions ty a1; CallRegisterActions ty a2] st) =
  seen (isActive st) (until_throw (group a1)) ++
  seen (isActive st) (until_throw (group a2)).
Proof.
  intros R C H. pose proof (reachable_wf st R) as W.
  cbn [run step].
  rewrite (registerActions_spec ty (pass a1) st W). cbn [snd].
  assert (W1 : wf (after_registerActions ty (pass a1) st)) by wf_tac.
  rewrite (registerActions_spec ty (pass a2) _ W1). cbn [snd].
  assert (W2 : wf (after_registerActions ty (pass a2)
                     (after_registerActions ty (pass a1) st))) by wf_tac.
  apply calls_during_added.
  rewrite (invokeEvent_spec (AnEvent (CustomEvent ty)) ty);
    [|exact W2|reflexivity|now rewrite String.eqb_sym].
  cbn [snd].
  rewrite after_invokeEvent_calls.
  rewrite !after_registerActions_registered, !after_registerActions_isActive,
    !after_registerActions_calls.
  rewrite !filter_app, H, !filter_new_entries, String.eqb_refl. cbn [app].
  now rewrite dispatch_calls_app, cleans_pass, !dispatch_calls_pass.
Qed.

Lemma groups_run_in_order_and_fail_apart_witness :
  let f1 := {| cb_name := 1; cb_throws := true |} in
  let f2 := {| cb_name := 2; cb_throws := false |} in
  let f3 := {| cb_name := 3; cb_throws := false |} in
  calls_during (invokeEvent (AnEvent (CustomEvent "modalConfirm")))
    (run [CallRegisterActions "modalConfirm" (ArgArray [f1; f2]);
          CallRegisterActions "modalConfirm" (ArgArray [f3])]
         (new_ModalElement true None)) =
  [(1, false); (3, false)].
Proof.
  intros f1 f2 f3.
  exact (groups_run_in_order_and_fail_apart "modalConfirm"
           (ArgArray [f1; f2]) (ArgArray [f3]) (new_ModalElement true None)
           (reachable_new true None) eq_refl eq_refl).
Defined.

(** X8.  As long as no [modalEnd] event has been dispatched by hand
    since the [start] of the invocation (and nothing has closed the
    dialog), end actions registered with [registerActions] during the
    invocation are not called by [end]: the cleanup closure of [start],
    registered before them, detaches them before their turn comes.
    [end] calls what it would have called without them. *)
Theorem late_end_actions_are_not_called t d e c dl s ops a st :
  reachable st -> isActive st = false -> forallb quiet ops = true ->
  let st2 := run ops (snd (start t d e c dl s st)) in
  calls_during end_ (snd (registerActions "modalEnd" (pass a) st2)) =
  calls_during end_ st2.
Proof.
  intros R A Q. pose proof (reachable_wf st R) as W.
  rewrite start_spec by assumption. cbn [snd]. lazy zeta.
  pose proof (running_run _ ops _ (running_start t d e c dl s st W A) Q)
    as (W2 & A2 & K2 & _).
  set (st2 := run ops (after_start t d e c dl s st)) in *.
  rewrite (registerActions_spec _ _ st2 W2). cbn [snd].
  assert (W3 : wf (after_registerActions "modalEnd" (pass a) st2)) by wf_tac.
  rewrite (calls_during_added end_ st2
             (dispatch_calls (isActive st2)
                (filter (has_type "modalEnd") (registeredListeners st2)))).
  2:{ rewrite (end_spec _ W2). apply after_end_calls. }
  apply calls_during_added. rewrite (end_spec _ W3). cbn [snd].
  rewrite after_end_calls.
  rewrite after_registerActions_registered, after_registerActions_isActive,
    after_registerActions_calls.
  rewrite filter_app, dispatch_calls_app, (has_cleanup_cleans st2 K2).
  now rewrite app_nil_r.
Qed.

Lemma late_end_actions_are_not_called_witness :
  let f := {| cb_name := 1; cb_throws := false |} in
  let g := {| cb_name := 2; cb_throws := false |} in
  let st2 := run [] (snd (start (text "T") (text "D") (ArgArray [f]) ArgUndefined ArgUndefined
                            ArgUndefined (new_ModalElement true None))) in
  calls_during end_ st2 = [(1, true)] /\
  calls_during end_ (snd (registerActions "modalEnd" (pass (ArgArray [g])) st2)) =
  calls_during end_ st2.
Proof.
  intros f g. split; [vm_compute; reflexivity|].
  exact (late_end_actions_are_not_called (text "T") (text "D") (ArgArray [f]) ArgUndefined
           ArgUndefined ArgUndefined [] (ArgArray [g]) (new_ModalElement true None)
           (reachable_new true None) eq_refl eq_refl).
Defined.

(** ** The overlay, the record of the focus target and the flag *)

Lemma existsb_incl {A : Type} (p : A -> bool) (l l' : list A) :
  incl l' l -> existsb p l = false -> existsb p l' = false.
Proof.
  intros I H. apply not_true_is_false. intros E.
  apply existsb_exists in E as [x [Hx Px]].
  assert (existsb p l = true) by (apply existsb_exists; exists x; auto).
  congruence.
Qed.

Lemma settled_same st st' :
  face st' = face st -> isActive st' = isActive st ->
  preModalFocusTarget st' = preModalFocusTarget st ->
  incl (registeredListeners st') (registeredListeners st) ->
  settled st -> settled st'.
Proof.
  intros F A T I [D S]. unfold settled.
  rewrite modal_display_face, F, <- modal_display_face, A, T. split; [exact D|].
  intros Ia. destruct (S Ia) as [S1 S2]. split; [exact S1|].
  exact (existsb_incl _ _ _ I S2).
Qed.

Lemma no_end_no_cleanup st :
  wf st -> filter (has_type "modalEnd") (registeredListeners st) = [] ->
  existsb cleans (registeredListeners st) = false.
Proof.
  intros W H. apply not_true_is_false. intros E.
  apply existsb_exists in E as [r [Hr C]].
  pose proof (wf_tidy _ W) as Ti. rewrite Forall_forall in Ti.
  pose proof (tidy_cleans r (Ti r Hr) C) as T.
  pose proof (filter_empty_In _ _ r H Hr) as N.
  unfold has_type in N. rewrite T in N. discriminate.
Qed.

Lemma settled_after_end st : wf st -> settled (after_end st).
Proof.
  intros W. destruct (after_end_settles st W) as (W' & A & T & D & E).
  unfold settled. rewrite A. split; [exact D|].
  intros _. split; [exact T|]. now apply no_end_no_cleanup.
Qed.

Lemma incl_filter {A : Type} (p : A -> bool) (l : list A) : incl (filter p l) l.
Proof. intros x Hx. now apply filter_In in Hx. Qed.

Lemma settled_closures_effect rs st : settled st -> settled (closures_effect rs st).
Proof.
  apply settled_same.
  - apply face_closures_effect.
  - apply closures_effect_isActive.
  - apply closures_effect_target.
  - rewrite closures_effect_registered.
    destruct (existsb cleans rs); [intros x []|apply incl_refl].
Qed.

Lemma settled_detach ty st : settled st -> settled (detach ty st).
Proof.
  apply settled_same; try reflexivity.
  unfold detach. autorewrite with proj. apply incl_filter.
Qed.

Lemma settled_after_invokeEvent ty st : settled st -> settled (after_invokeEvent ty st).
Proof.
  intros S. unfold after_invokeEvent, after_dispatch.
  now apply settled_detach, settled_closures_effect.
Qed.

Lemma settled_after_start t d e c dl s st : settled (after_start t d e c dl s st).
Proof.
  unfold settled.
  rewrite modal_display_face, face_after_start.
  unfold after_start.
  destruct (opened_frame c dl (registering t d e c dl s st)) as (_ & _ & -> & _).
  split; [reflexivity|discriminate].
Qed.

Lemma settled_after_registerActions ty a st :
  settled st -> settled (after_registerActions ty (pass a) st).
Proof.
  intros [D S]. unfold settled.
  rewrite modal_display_face, face_after_registerActions, <- modal_display_face,
    after_registerActions_isActive, after_registerActions_target,
    after_registerActions_registered.
  split; [exact D|]. intros Ia. destruct (S Ia) as [S1 S2].
  split; [exact S1|]. now rewrite existsb_app, S2, cleans_pass.
Qed.

Lemma settled_set_modal f st :
  (forall d, modal_display (f d) = modal_display d) ->
  settled st -> settled (set_modal f st).
Proof.
  intros F [D S]. unfold settled. autorewrite with proj. rewrite F.
  split; assumption.
Qed.

Lemma modal_display_label_assigned cls default v m :
  modal_display (label_assigned cls default v m) = modal_display m.
Proof.
  unfold label_assigned. destruct (modal_child cls m) as [c|]; [|reflexivity].
  destruct (has_innerText c m); [|reflexivity].
  destruct (ToString _); [|reflexivity].
  now destruct c as [[]| |].
Qed.

Lemma settled_after_click_event st : wf st -> settled (after_click_event st).
Proof.
  intros W. unfold after_click_event.
  now apply settled_detach, settled_closures_effect, settled_after_end.
Qed.

Lemma settled_after_invoke event st :
  wf st -> settled st -> settled (after_invoke event st).
Proof.
  intros W S. unfold after_invoke.
  destruct (accepted event) as [ty|]; [|exact S].
  destruct (heard event); [|now apply settled_detach].
  destruct (String.eqb "click" ty);
    [now apply settled_after_click_event|now apply settled_after_invokeEvent].
Qed.

Lemma settled_step o st : wf st -> settled st -> settled (snd (step o st)).
Proof.
  intros W S. destruct o as [t d e c dl s| |ty a|ev|v|v|tg|el]; cbn [step].
  - destruct (isActive st) eqn:A.
    + now rewrite start_active.
    + rewrite start_spec by assumption. apply settled_after_start.
  - rewrite end_spec by assumption. now apply settled_after_end.
  - rewrite registerActions_spec by assumption.
    now apply settled_after_registerActions.
  - rewrite invokeEvent_state by assumption. now apply settled_after_invoke.
  - rewrite set_confirmText_spec. cbn [snd].
    apply settled_set_modal; [apply modal_display_label_assigned|exact S].
  - rewrite set_declineText_spec. cbn [snd].
    apply settled_set_modal; [apply modal_display_label_assigned|exact S].
  - rewrite click_spec by assumption. cbn [snd].
    unfold after_click. lazy zeta. apply settled_closures_effect.
    destruct tg; cbn [is_overlay after_button]; try assumption;
      apply settled_after_end; wf_tac.
  - exact S.
Qed.

Lemma settled_new g focused : settled (new_ModalElement g focused).
Proof. unfold settled. cbn. auto. Qed.

Lemma reachable_settled st : reachable st -> settled st.
Proof.
  intros (g & focused & ops & ->).
  assert (G : forall ops st, wf st -> settled st -> settled (run ops st)).
  { clear. induction ops as [|o ops IH]; intros st W S; cbn [run]; [exact S|].
    apply IH; [now apply wf_step|now apply settled_step]. }
  apply G; [apply wf_new|apply settled_new].
Qed.

(** X9.  In every state an instance reaches, the overlay has the inline
    display "block" exactly when [isActive] is true, and an inactive
    dialog has no recorded focus target. *)
Theorem overlay_shown_while_active st :
  reachable st ->
  modal_display (modal st) = (if isActive st then Some "block" else None) /\
  (isActive st = false -> preModalFocusTarget st = None).
Proof.
  intros R. destruct (reachable_settled st R) as [D S].
  split; [exact D|]. intros A. apply (S A).
Qed.

Lemma overlay_shown_while_active_witness :
  let st := run [CallStart (text "T") (text "D") ArgUndefined ArgUndefined ArgUndefined ArgUndefined;
                 Click OnOverlay;
                 CallStart (text "T2") (text "D2") ArgUndefined (ArgArray []) ArgUndefined
                   ArgUndefined]
                (new_ModalElement true (Some (PageElement 4))) in
  isActive st = true /\
  modal_display (modal st) = (if isActive st then Some "block" else None).
Proof.
  intros st. split; [vm_compute; reflexivity|].
  exact (proj1 (overlay_shown_while_active st (reachable_run _ _ (reachable_new _ _)))).
Defined.

(** X10.  [end] on a dialog that is not active calls the callbacks
    registered for [modalEnd] and removes them, and nothing else: the
    callbacks registered for the other events stay registered, in their
    order. *)
Theorem end_when_inactive_keeps_other_callbacks st :
  reachable st -> isActive st = false ->
  registeredListeners (snd (end_ st)) =
  filter (fun r => negb (has_type "modalEnd" r)) (registeredListeners st).
Proof.
  intros R A. pose proof (reachable_wf st R) as W.
  destruct (reachable_settled st R) as [_ S]. destruct (S A) as [_ C].
  rewrite end_spec by assumption. cbn [snd]. rewrite after_end_registered.
  now rewrite (existsb_incl _ _ _ (incl_filter _ _) C).
Qed.

Lemma end_when_inactive_keeps_other_callbacks_witness :
  let f := {| cb_name := 1; cb_throws := false |} in
  let st := run [CallRegisterActions "modalConfirm" (ArgArray [f]);
                 CallRegisterActions "modalEnd" (ArgArray [f])]
                (new_ModalElement true None) in
  map r_type (registeredListeners (snd (end_ st))) = ["modalConfirm"] /\
  registeredListeners (snd (end_ st)) =
  filter (fun r => negb (has_type "modalEnd" r)) (registeredListeners st).
Proof.
  intros f st. split; [vm_compute; reflexivity|].
  exact (end_when_inactive_keeps_other_callbacks st
           (reachable_run _ _ (reachable_new _ _)) eq_refl).
Defined.



(** ** Labels and markup *)

(** The text of a button is written through [innerText] only, and only
    when the button is what [#getModalChild] finds. *)
Lemma texts_assign_innerHTML cls l m :
  confirm_innerText (assign_innerHTML cls l m) = confirm_innerText m /\
  decline_innerText (assign_innerHTML cls l m) = decline_innerText m.
Proof.
  unfold assign_innerHTML. now destruct (modal_child cls m) as [[[]| |]|].
Qed.

Lemma texts_assign_display cls v m :
  confirm_innerText (assign_display cls v m) = confirm_innerText m /\
  decline_innerText (assign_display cls v m) = decline_innerText m.
Proof.
  unfold assign_display. now destruct (modal_child cls m) as [[[]| |]|].
Qed.

Lemma texts_started t d c dl m :
  let m1 := set_modal_display (Some "block")
              (assign_display "md-decline" (display_for dl)
                 (assign_display "md-confirm" (display_for c)
                    (assign_innerHTML "md-description" d
                       (assign_innerHTML "md-title" t m)))) in
  confirm_innerText m1 = confirm_innerText m /\
  decline_innerText m1 = decline_innerText m.
Proof.
  lazy zeta. cbn [confirm_innerText decline_innerText set_modal_display].
  split.
  - rewrite !(proj1 (texts_assign_display _ _ _)).
    now rewrite !(proj1 (texts_assign_innerHTML _ _ _)).
  - rewrite !(proj2 (texts_assign_display _ _ _)).
    now rewrite !(proj2 (texts_assign_innerHTML _ _ _)).
Qed.

Lemma decline_text_label_confirm v m :
  decline_innerText (label_assigned "md-confirm" DEFAULT_CONFIRM_TEXT v m) =
  decline_innerText m.
Proof.
  unfold label_assigned. rewrite modal_child_confirm.
  destruct (first_with "md-confirm" (title_children m)) as [p|].
  - destruct (has_innerText _ m); [|reflexivity]. now destruct (ToString _).
  - destruct (first_with "md-confirm" (description_children m)) as [p|];
      (destruct (has_innerText _ m); [|reflexivity]); now destruct (ToString _).
Qed.

Lemma confirm_text_label_decline v m :
  confirm_innerText (label_assigned "md-decline" DEFAULT_DECLINE_TEXT v m) =
  confirm_innerText m.
Proof.
  unfold label_assigned. rewrite modal_child_decline.
  destruct (first_with "md-decline" (title_children m)) as [p|].
  - destruct (has_innerText _ m); [|reflexivity]. now destruct (ToString _).
  - destruct (first_with "md-decline" (description_children m)) as [p|];
      (destruct (has_innerText _ m); [|reflexivity]); now destruct (ToString _).
Qed.

(** X12.  The labels persist: no operation but the setter of a label
    changes the text of that button; in particular [start] and [end]
    keep the text set before. *)
Theorem labels_change_only_by_their_setters o st :
  reachable st ->
  (assigns_confirmText o = false ->
   confirm_innerText (modal (snd (step o st))) = confirm_innerText (modal st)) /\
  (assigns_declineText o = false ->
   decline_innerText (modal (snd (step o st))) = decline_innerText (modal st)).
Proof.
  intros R. pose proof (reachable_wf st R) as W.
  rewrite (confirm_text_face (snd (step o st))), (confirm_text_face st),
    (decline_text_face (snd (step o st))), (decline_text_face st),
    (face_step o st W).
  split; intros H; destruct o as [t d e c dl s| |ty a|ev|v|v|tg|el];
    try discriminate; try reflexivity.
  - destruct (isActive st); [reflexivity|apply texts_started].
  - destruct (heard ev) as [ty|]; [|reflexivity].
    now destruct (String.eqb ty "click").
  - apply confirm_text_label_decline.
  - now destruct tg.
  - destruct (isActive st); [reflexivity|apply texts_started].
  - destruct (heard ev) as [ty|]; [|reflexivity].
    now destruct (String.eqb ty "click").
  - apply decline_text_label_confirm.
  - now destruct tg.
Qed.

Lemma labels_change_only_by_their_setters_witness :
  let st := run [AssignConfirmText (JString "Yes")] (new_ModalElement true None) in
  let o := CallStart (text "T") (text "D") ArgUndefined (ArgArray []) ArgUndefined ArgUndefined in
  confirm_innerText (modal st) = "Yes" /\
  confirm_innerText (modal (snd (step o st))) = confirm_innerText (modal st).
Proof.
  intros st o. split; [vm_compute; reflexivity|].
  exact (proj1 (labels_change_only_by_their_setters o st
                  (reachable_run _ _ (reachable_new _ _))) eq_refl).
Defined.

Lemma ToString_label v default s :
  is_object v = false -> default <> "" ->
  ToString (if truthy v then v else JString default) = Normal s -> s <> "".
Proof.
  intros O D. destruct (truthy v) eqn:T.
  - destruct v as [| |[|]|z c r|x| |o|]; cbn in *; try discriminate;
      intros [= <-]; try discriminate.
    intros ->. discriminate.
  - cbn. now intros [= <-].
Qed.

Lemma confirm_text_label_confirm v m :
  is_object v = false -> confirm_innerText m <> "" ->
  confirm_innerText (label_assigned "md-confirm" DEFAULT_CONFIRM_TEXT v m) <> "".
Proof.
  intros O C. unfold label_assigned. rewrite modal_child_confirm.
  destruct (first_with "md-confirm" (title_children m)) as [p|].
  { destruct (has_innerText _ m); [|exact C]. now destruct (ToString _). }
  destruct (first_with "md-confirm" (description_children m)) as [p|].
  { destruct (has_innerText _ m); [|exact C]. now destruct (ToString _). }
  cbn [has_innerText].
  destruct (ToString _) as [s|x] eqn:E; [|exact C].
  cbn [set_innerText confirm_innerText set_confirm_innerText].
  apply (ToString_label v DEFAULT_CONFIRM_TEXT s O); [discriminate|exact E].
Qed.

Lemma decline_text_label_decline v m :
  is_object v = false -> decline_innerText m <> "" ->
  decline_innerText (label_assigned "md-decline" DEFAULT_DECLINE_TEXT v m) <> "".
Proof.
  intros O C. unfold label_assigned. rewrite modal_child_decline.
  destruct (first_with "md-decline" (title_children m)) as [p|].
  { destruct (has_innerText _ m); [|exact C]. now destruct (ToString _). }
  destruct (first_with "md-decline" (description_children m)) as [p|].
  { destruct (has_innerText _ m); [|exact C]. now destruct (ToString _). }
  cbn [has_innerText].
  destruct (ToString _) as [s|x] eqn:E; [|exact C].
  cbn [set_innerText decline_innerText set_decline_innerText].
  apply (ToString_label v DEFAULT_DECLINE_TEXT s O); [discriminate|exact E].
Qed.

Lemma labels_step o st :
  wf st -> assigns_object o = false ->
  confirm_innerText (modal st) <> "" /\ decline_innerText (modal st) <> "" ->
  confirm_innerText (modal (snd (step o st))) <> "" /\
  decline_innerText (modal (snd (step o st))) <> "".
Proof.
  intros W O [C D].
  rewrite (confirm_text_face (snd (step o st))),
    (decline_text_face (snd (step o st))), (face_step o st W).
  rewrite (confirm_text_face st) in C. rewrite (decline_text_face st) in D.
  destruct o as [t d e c dl s| |ty a|ev|v|v|tg|el]; try (split; assumption).
  - destruct (isActive st); [split; assumption|].
    destruct (texts_started t d c dl (face st)) as [-> ->]. split; assumption.
  - destruct (heard ev) as [ty|]; [|split; assumption].
    now destruct (String.eqb ty "click").
  - split; [now apply confirm_text_label_confirm|].
    now rewrite decline_text_label_confirm.
  - split; [now rewrite confirm_text_label_decline|].
    now apply decline_text_label_decline.
  - now destruct tg.
Qed.

(** X13.  As long as no object is assigned to [confirmText] or
    [declineText], neither button has an empty label: what the setters
    store for a string, a number or a boolean is not empty, and a symbol
    is refused. *)
Theorem labels_never_empty generateCSS focused ops :
  forallb (fun o => negb (assigns_object o)) ops = true ->
  let st := run ops (new_ModalElement generateCSS focused) in
  confirm_innerText (modal st) <> "" /\ decline_innerText (modal st) <> "".
Proof.
  intros H. lazy zeta.
  assert (G : forall ops st, wf st ->
            forallb (fun o => negb (assigns_object o)) ops = true ->
            confirm_innerText (modal st) <> "" /\ decline_innerText (modal st) <> "" ->
            confirm_innerText (modal (run ops st)) <> "" /\
            decline_innerText (modal (run ops st)) <> "").
  { clear. induction ops as [|o ops IH]; intros st W Q P; cbn [run]; [exact P|].
    cbn [forallb] in Q. apply andb_true_iff in Q as [Q1 Q2].
    apply negb_true_iff in Q1.
    apply IH; [now apply wf_step|exact Q2|now apply labels_step]. }
  apply G; [apply wf_new|exact H|]. split; discriminate.
Qed.

Lemma labels_never_empty_witness :
  let ops := [AssignConfirmText (JString ""); AssignDeclineText (JBool false);
              AssignDeclineText JSymbol;
              AssignConfirmText (JNumber false "7" "")] in
  let st := run ops (new_ModalElement true None) in
  confirm_innerText (modal st) = "7" /\
  confirm_innerText (modal st) <> "" /\ decline_innerText (modal st) <> "".
Proof.
  intros ops st. split; [vm_compute; reflexivity|].
  exact (labels_never_empty true None ops eq_refl).
Defined.

(** [start] with markup in which [#getModalChild] finds nothing: every
    assignment reaches the element [#buildModal] built. *)
Lemma started_plain t d c dl m :
  plain_title t -> plain_description d ->
  set_modal_display (Some "block")
    (assign_display "md-decline" (display_for dl)
       (assign_display "md-confirm" (display_for c)
          (assign_innerHTML "md-description" d
             (assign_innerHTML "md-title" t m)))) =
  set_modal_display (Some "block")
    (set_decline_display (display_for dl)
       (set_confirm_display (display_for c)
          (set_description_children d (set_title_children t m)))).
Proof.
  intros (T1 & T2 & T3) (D1 & D2). unfold free_of in *.
  assert (E1 : assign_innerHTML "md-title" t m = set_title_children t m)
    by reflexivity.
  rewrite E1.
  assert (E2 : assign_innerHTML "md-description" d (set_title_children t m) =
               set_description_children d (set_title_children t m)).
  { unfold assign_innerHTML. rewrite modal_child_description.
    cbn [title_children set_title_children]. now rewrite T1. }
  rewrite E2.
  set (m2 := set_description_children d (set_title_children t m)).
  assert (E3 : forall v, assign_display "md-confirm" v m2 = set_confirm_display v m2).
  { intros v. unfold assign_display. rewrite modal_child_confirm.
    change (title_children m2) with t. change (description_children m2) with d.
    now rewrite T2, D1. }
  rewrite E3.
  set (m3 := set_confirm_display (display_for c) m2).
  assert (E4 : forall v, assign_display "md-decline" v m3 = set_decline_display v m3).
  { intros v. unfold assign_display. rewrite modal_child_decline.
    change (title_children m3) with t. change (description_children m3) with d.
    now rewrite T3, D2. }
  now rewrite E4.
Qed.

Lemma plain_own_buttons st : plain_markup st -> own_buttons st.
Proof.
  intros [(_ & T2 & T3) (D1 & D2)]. unfold free_of in *.
  split; [rewrite modal_child_confirm|rewrite modal_child_decline].
  - now rewrite T2, D1.
  - now rewrite T3, D2.
Qed.

Lemma label_assigned_children cls default v m :
  modal_child cls m = Some (Built Confirm) \/ modal_child cls m = Some (Built Decline) ->
  title_children (label_assigned cls default v m) = title_children m /\
  description_children (label_assigned cls default v m) = description_children m.
Proof.
  intros H. unfold label_assigned.
  destruct H as [-> | ->]; cbn [has_innerText]; now destruct (ToString _).
Qed.

(** X14.  With markup in which no element has a class the methods look
    up ("md-description", "md-confirm", "md-decline"): a [start] that
    does not throw installs the fragments of its two arguments as the
    children of the title and of the description; every other
    operation, and a [start] that throws, leaves the two as they are. *)
Theorem markup_written_by_start_only o t d e c dl s st :
  reachable st -> plain_title t -> plain_description d ->
  (plain_markup st -> calls_start o = false ->
   title_children (modal (snd (step o st))) = title_children (modal st) /\
   description_children (modal (snd (step o st))) =
     description_children (modal st)) /\
  (title_children (modal (snd (start t d e c dl s st))) =
     (if isActive st then title_children (modal st) else t) /\
   description_children (modal (snd (start t d e c dl s st))) =
     (if isActive st then description_children (modal st) else d)).
Proof.
  intros R Pt Pd. pose proof (reachable_wf st R) as W. split.
  - intros P H. destruct (plain_own_buttons st P) as [Oc Od].
    rewrite (title_face (snd (step o st))), (title_face st),
      (description_face (snd (step o st))), (description_face st),
      (face_step o st W).
    destruct o as [| |ty a|ev|v|v|tg|el]; try discriminate; try (split; reflexivity).
    + destruct (heard ev) as [ty|]; [|split; reflexivity].
      now destruct (String.eqb ty "click").
    + apply label_assigned_children. left. exact Oc.
    + apply label_assigned_children. right. exact Od.
    + now destruct tg.
  - change (start t d e c dl s st) with (step (CallStart t d e c dl s) st).
    rewrite (title_face (snd (step _ st))), (title_face st),
      (description_face (snd (step _ st))), (description_face st),
      (face_step (CallStart t d e c dl s) st W).
    destruct (isActive st); [split; reflexivity|].
    rewrite (started_plain t d c dl (face st) Pt Pd). split; reflexivity.
Qed.

Lemma markup_written_by_start_only_witness :
  let title := [Element true [] None [Text "T"]; Text " and more"] in
  let st := new_ModalElement true None in
  title_children (modal (snd (start title (text "D") ArgUndefined ArgUndefined
                                ArgUndefined ArgUndefined st))) =
  (if isActive st then title_children (modal st) else title).
Proof.
  intros title st.
  exact (proj1 (proj2 (markup_written_by_start_only CallEnd title (text "D")
                         ArgUndefined ArgUndefined ArgUndefined ArgUndefined st
                         (reachable_new _ _)
                         (conj eq_refl (conj eq_refl eq_refl))
                         (conj eq_refl eq_refl)))).
Defined.

(** X15.  After a [start] that does not throw, with markup in which no
    element has a class the methods look up, a button has the inline
    display "block" when the corresponding argument is not [undefined]
    ([null] and the empty array included) and no inline display when it
    is, whatever the display was before. *)
Theorem button_display_decided_by_start t d e c dl s st :
  reachable st -> isActive st = false -> plain_title t -> plain_description d ->
  confirm_display (modal (snd (start t d e c dl s st))) =
    (if is_undefined c then None else Some "block") /\
  decline_display (modal (snd (start t d e c dl s st))) =
    (if is_undefined dl then None else Some "block").
Proof.
  intros R A Pt Pd. pose proof (reachable_wf st R) as W.
  change (start t d e c dl s st) with (step (CallStart t d e c dl s) st).
  rewrite (confirm_display_face (snd (step _ st))),
    (decline_display_face (snd (step _ st))),
    (face_step (CallStart t d e c dl s) st W), A.
  rewrite (started_plain t d c dl (face st) Pt Pd).
  split; [now destruct c|now destruct dl].
Qed.

Lemma button_display_decided_by_start_witness :
  let st := run [CallStart (text "T") (text "D") ArgUndefined (ArgArray []) ArgUndefined
                   ArgUndefined;
                 CallEnd]
                (new_ModalElement true None) in
  confirm_display (modal st) = Some "block" /\
  confirm_display (modal (snd (start (text "T2") (text "D2") ArgUndefined ArgUndefined
                                 (ArgArray []) ArgUndefined st))) =
    (if is_undefined ArgUndefined then None else Some "block").
Proof.
  intros st. split; [vm_compute; reflexivity|].
  refine (proj1 (button_display_decided_by_start (text "T2") (text "D2") ArgUndefined
                   ArgUndefined (ArgArray []) ArgUndefined st
                   (reachable_run _ _ (reachable_new _ _)) _
                   (conj eq_refl (conj eq_refl eq_refl)) (conj eq_refl eq_refl))).
  vm_compute. reflexivity.
Defined.



(** ** The callbacks of [start] and of a click *)

(** X16.  On an inactive dialog with no callback left registered for
    [modalStart], [start] calls its [onStartActions] in order, up to the
    first one that throws, and still opens the dialog; the start actions
    are one-shot: afterwards none is registered, and a dispatch of
    [modalStart] calls nothing. *)
Theorem start_actions_run_once t d e c dl s st :
  reachable st -> isActive st = false ->
  filter (has_type "modalStart") (registeredListeners st) = [] ->
  let st1 := snd (start t d e c dl s st) in
  calls_during (start t d e c dl s) st = seen false (until_throw (group s)) /\
  isActive st1 = true /\
  filter (has_type "modalStart") (registeredListeners st1) = [] /\
  calls_during (invokeEvent (AnEvent onStart)) st1 = [].
Proof.
  intros R A H. pose proof (reachable_wf st R) as W. lazy zeta.
  assert (C : calls_during (start t d e c dl s) st = seen false (until_throw (group s))).
  { apply calls_during_added. rewrite start_spec by assumption. cbn [snd].
    rewrite after_start_calls by assumption.
    rewrite filter_app, H. cbn [app]. unfold start_entries. lazy zeta.
    types. reflexivity. }
  rewrite start_spec by assumption. cbn [snd].
  pose proof (wf_after_start t d e c dl s st W) as W1.
  assert (N : filter (has_type "modalStart")
                (registeredListeners (after_start t d e c dl s st)) = []).
  { unfold after_start.
    destruct (opened_frame c dl (registering t d e c dl s st)) as (_ & -> & _).
    apply filter_filter_neg. }
  split; [exact C|]. split; [|split; [exact N|]].
  - unfold after_start.
    now destruct (opened_frame c dl (registering t d e c dl s st)) as (_ & _ & -> & _).
  - apply calls_during_added.
    rewrite (invokeEvent_spec (AnEvent onStart) "modalStart" _ W1 eq_refl eq_refl).
    cbn [snd].
    rewrite (after_invokeEvent_none _ _ W1 N). now rewrite app_nil_r.
Qed.

Lemma start_actions_run_once_witness :
  let f1 := {| cb_name := 1; cb_throws := false |} in
  let f2 := {| cb_name := 2; cb_throws := true |} in
  let f3 := {| cb_name := 3; cb_throws := false |} in
  let st := new_ModalElement true None in
  calls_during (start (text "T") (text "D") ArgUndefined ArgUndefined ArgUndefined
                  (ArgArray [f1; f2; f3])) st = [(1, false); (2, false)] /\
  isActive (snd (start (text "T") (text "D") ArgUndefined ArgUndefined ArgUndefined
                   (ArgArray [f1; f2; f3]) st)) = true.
Proof.
  intros f1 f2 f3 st.
  pose proof (start_actions_run_once (text "T") (text "D") ArgUndefined ArgUndefined ArgUndefined
                (ArgArray [f1; f2; f3]) st (reachable_new _ _) eq_refl eq_refl) as P.
  exact (conj (proj1 P) (proj1 (proj2 P))).
Defined.

(** X17.  On a dialog that [start] has just opened from a state with no
    callback left registered, a click calls the actions of each group in
    order up to the first that throws: an action that throws ends its own
    group, and the end actions still run after confirm or decline actions
    that threw. *)
Theorem click_stops_a_group_at_its_throw t d e c dl s st :
  reachable st -> isActive st = false -> registeredListeners st = [] ->
  let st1 := snd (start t d e c dl s st) in
  calls_during (click OnConfirm) st1 =
    seen true (until_throw (group c)) ++ seen true (until_throw (group e)) /\
  calls_during (click OnDecline) st1 =
    seen true (until_throw (group dl)) ++ seen true (until_throw (group e)) /\
  calls_during (click OnClose) st1 = seen true (until_throw (group e)) /\
  calls_during (click OnOverlay) st1 = seen true (until_throw (group e)).
Proof.
  intros R A H. apply click_calls_until_throw; auto using reachable_wf.
Qed.

Lemma click_stops_a_group_at_its_throw_witness :
  let f1 := {| cb_name := 1; cb_throws := true |} in
  let f2 := {| cb_name := 2; cb_throws := false |} in
  let f3 := {| cb_name := 3; cb_throws := false |} in
  let st1 := snd (start (text "T") (text "D") (ArgArray [f3]) (ArgArray [f1; f2]) ArgUndefined
                    ArgUndefined (new_ModalElement true None)) in
  calls_during (click OnConfirm) st1 = [(1, true); (3, true)].
Proof.
  intros f1 f2 f3.
  exact (proj1 (click_stops_a_group_at_its_throw (text "T") (text "D") (ArgArray [f3])
                  (ArgArray [f1; f2]) ArgUndefined ArgUndefined
                  (new_ModalElement true None) (reachable_new true None) eq_refl eq_refl)).
Defined.

(** ** A click event dispatched by hand *)

(** X18.  A click event passed to [invokeEvent] (an event that
    [dispatchEvent] accepts and whose propagation is not stopped) closes
    the dialog: the listener of the overlay answers it, since the
    event's target is the overlay itself.  With nothing registered for
    clicks, the call does exactly what [end] does. *)
Theorem click_event_by_hand_closes event st :
  reachable st -> heard event = Some "click" ->
  let st1 := snd (invokeEvent event st) in
  isActive st1 = false /\
  modal_display (modal st1) = None /\
  preModalFocusTarget st1 = None /\
  (filter (has_type "click") (registeredListeners st) = [] ->
   invokeEvent event st = end_ st).
Proof.
  intros R E. pose proof (reachable_wf st R) as W. lazy zeta.
  pose proof (reachable_settled _ (reachable_step (CallInvokeEvent event) st R))
    as [D Q].
  cbn [step] in D, Q.
  assert (A : isActive (snd (invokeEvent event st)) = false).
  { rewrite (invokeEvent_click_spec event st W E). cbn [snd].
    unfold after_click_event, detach.
    now rewrite isActive_with_callbacks, closures_effect_isActive, after_end_isActive. }
  split; [exact A|]. split; [now rewrite D, A|]. split; [now apply Q|].
  intros H.
  rewrite (invokeEvent_click_spec event st W E), (end_spec st W).
  unfold after_click_event. rewrite H.
  cbn [filter]. rewrite closures_effect_nil.
  rewrite detach_none; [reflexivity|now apply wf_after_end|].
  apply filter_none. intros r Hr. rewrite after_end_registered in Hr.
  apply filter_In in Hr as [Hr _].
  apply (filter_empty_In _ _ r H).
  destruct (existsb cleans (filter (has_type "modalEnd") (registeredListeners st)));
    [destruct Hr|exact Hr].
Qed.

Lemma click_event_by_hand_closes_witness :
  let f := {| cb_name := 1; cb_throws := false |} in
  let st := run [CallStart (text "T") (text "D") (ArgArray [f]) ArgUndefined
                   ArgUndefined ArgUndefined]
                (new_ModalElement true None) in
  let ev := AnEvent (CustomEvent "click") in
  isActive st = true /\ isActive (snd (invokeEvent ev st)) = false /\
  invokeEvent ev st = end_ st.
Proof.
  intros f st ev. split; [vm_compute; reflexivity|].
  pose proof (click_event_by_hand_closes ev st
                (reachable_run _ _ (reachable_new _ _)) eq_refl) as P.
  split; [exact (proj1 P)|].
  apply (proj2 (proj2 (proj2 P))). vm_compute. reflexivity.
Defined.

(** ** What [invokeEvent] is given *)

(** X20.  [invokeEvent] throws exactly when line 335 refuses its
    argument: a [TypeError] for a value that is not an event, an
    [InvalidStateError] for an event that is not initialised or is being
    dispatched.  The instance is then left as it was: no callback is
    called and no entry is removed.  For every other argument it
    returns. *)
Theorem invokeEvent_throws_for_what_cannot_be_dispatched event st :
  (accepted event = None ->
   invokeEvent event st =
   (Throw (match event with
           | AnEvent _ => InvalidStateError
           | NotAnEvent => TypeError
           end), st)) /\
  (accepted event <> None -> fst (invokeEvent event st) = Normal tt).
Proof.
  split.
  - apply invokeEvent_on_rejected.
  - apply invokeEvent_on_total.
Qed.

Lemma invokeEvent_throws_for_what_cannot_be_dispatched_witness :
  let f := {| cb_name := 1; cb_throws := false |} in
  let st := snd (start (text "T") (text "D") (ArgArray [f]) ArgUndefined ArgUndefined
                   ArgUndefined (new_ModalElement true None)) in
  let in_dispatch :=
    {| ev_type := "modalEnd"; ev_initialized := true; ev_dispatch := true;
       ev_stop_propagation := false |} in
  invokeEvent (AnEvent in_dispatch) st = (Throw InvalidStateError, st) /\
  fst (invokeEvent (AnEvent onEnd) st) = Normal tt.
Proof.
  intros f st in_dispatch. split.
  - exact (proj1 (invokeEvent_throws_for_what_cannot_be_dispatched
                    (AnEvent in_dispatch) st) eq_refl).
  - apply (proj2 (invokeEvent_throws_for_what_cannot_be_dispatched
                    (AnEvent onEnd) st)). discriminate.
Defined.

(** X21.  An event whose propagation was stopped before it is passed to
    [invokeEvent] runs no listener, but the loop after the dispatch
    still removes the entries of its type: their callbacks are
    detached without having been called. *)
Theorem stopped_event_detaches_without_calling event ty st :
  reachable st -> accepted event = Some ty -> heard event = None ->
  fst (invokeEvent event st) = Normal tt /\
  calls (snd (invokeEvent event st)) = calls st /\
  registeredListeners (snd (invokeEvent event st)) =
    filter (fun r => negb (has_type ty r)) (registeredListeners st) /\
  isActive (snd (invokeEvent event st)) = isActive st.
Proof.
  intros R A H. pose proof (reachable_wf st R) as W.
  unfold invokeEvent. rewrite (invokeEvent_on_stopped end_ event ty st W A H).
  cbn [fst snd]. unfold detach. autorewrite with proj. auto.
Qed.

Lemma stopped_event_detaches_without_calling_witness :
  let f := {| cb_name := 1; cb_throws := false |} in
  let st := run [CallStart (text "T") (text "D") ArgUndefined (ArgArray [f])
                   ArgUndefined ArgUndefined]
                (new_ModalElement true None) in
  let stopped :=
    AnEvent {| ev_type := "modalConfirm"; ev_initialized := true;
               ev_dispatch := false; ev_stop_propagation := true |} in
  map r_type (registeredListeners st) = ["modalConfirm"; "modalEnd"] /\
  calls (snd (invokeEvent stopped st)) = calls st /\
  map r_type (registeredListeners (snd (invokeEvent stopped st))) = ["modalEnd"].
Proof.
  intros f st stopped. split; [vm_compute; reflexivity|].
  pose proof (stopped_event_detaches_without_calling stopped "modalConfirm" st
                (reachable_run _ _ (reachable_new true None)) eq_refl eq_refl)
    as (_ & C & Rg & _).
  split; [exact C|].
  refine (eq_trans (f_equal (map r_type) Rg) _). vm_compute. reflexivity.
Defined.
